(** * The EV3 extension of scratch-vm: command encoding and connection handling

    A shallow embedding of [src/extensions/scratch3_ev3/index.js].

    JavaScript numbers are modelled as [Z]: every quantity the encoder handles
    (milliseconds, speeds, byte values, array lengths) is an integer.  The
    arithmetic of the source is that of binary64, which is exact on integers
    of magnitude up to [2^53]; statements that depend on the exact value of
    a sum or difference carry that bound.  The
    32-bit behaviour of the bit operators [&] and [>>] is written out through
    [ToInt32].  Arrays of numbers are [list Z]; an array element is kept as the
    number the source puts there (the source masks some of them with [0xff]
    and leaves others as they are). *)

From Stdlib Require Import ZArith String Ascii List Bool Lia.
From Stdlib Require Import DecimalString.
From Stdlib Require DecimalZ DecimalPos.
Import ListNotations.
Open Scope Z_scope.

(** ** JavaScript integer operators *)

Module JS.

(** [ToInt32] of ECMAScript on an integral number: reduce modulo 2^32 into the
    signed range. *)
Definition ToInt32 (x : Z) : Z := (x + 2 ^ 31) mod 2 ^ 32 - 2 ^ 31.

(** [a & b] *)
Definition band (a b : Z) : Z := Z.land (ToInt32 a) (ToInt32 b).

(** [a >> k] (sign-propagating shift; the count is taken modulo 32) *)
Definition shr (a k : Z) : Z := Z.shiftr (ToInt32 a) (k mod 32).

(** [Math.abs] and [Math.floor (n / 2)] on integers *)
Definition Math_abs (n : Z) : Z := Z.abs n.
Definition Math_floor_half (n : Z) : Z := n / 2.

(** [String (n)] for an integer [n]: its decimal numeral. *)
Definition String_of (n : Z) : string := NilZero.string_of_int (Z.to_int n).

End JS.

Infix "&" := JS.band (at level 40, left associativity) : Z_scope.
Infix ">>" := JS.shr (at level 31, left associativity) : Z_scope.

(** ** Constants of the extension *)

Module PRIMITIVE.
Definition LAYER : Z := 0x00.
Definition NUM8 : Z := 0x81.
Definition NUM16 : Z := 0x82.
Definition NUM32 : Z := 0x83.
Definition COAST : Z := 0x0.
Definition BRAKE : Z := 0x1.
Definition LONGRAMP : Z := 50.
Definition STEPSPEED : Z := 0xAE.
Definition TIMESPEED : Z := 0xAF.
Definition OUTPUTSTOP : Z := 0xA3.
Definition OUTPUTRESET : Z := 0xA2.
Definition STEPSPEEDSYNC : Z := 0xB0.
Definition TIMESPEEDSYNC : Z := 0xB1.
End PRIMITIVE.

(** An entry of [MOTOR_PORTS]. *)
Module Info.
Record t := { name : string; value : Z }.
End Info.

Definition MOTOR_PORTS : list Info.t :=
  [ {| Info.name := "A"; Info.value := 1 |};
    {| Info.name := "B"; Info.value := 2 |};
    {| Info.name := "C"; Info.value := 4 |};
    {| Info.name := "D"; Info.value := 8 |} ].

(** ** The command encoder: [_motorCommand] *)

(** The inner function [getRunValues]. *)
Definition getRunValues (run : Z) : list Z :=
  if run <? 0x7fff then
    [ PRIMITIVE.NUM16; run & 0xff; (run >> 8) & 0xff ]
  else
    [ PRIMITIVE.NUM32; run & 0xff; (run >> 8) & 0xff;
      (run >> 16) & 0xff; (run >> 24) & 0xff ].

(** The two assignments guarded by [speed < 0]; the result is the pair of the
    updated [speed] and [n]. *)
Definition normalize (n speed : Z) : Z * Z :=
  if speed <? 0 then (-1 * speed, -1 * n) else (speed, n).

(** [let dir = (n < 0) ? 0x100 - speed : speed] *)
Definition direction (n speed : Z) : Z :=
  if n <? 0 then 0x100 - speed else speed.

(** "Setup motor run duration and ramping behavior": the values of [rampup],
    [run] and [rampdown] once the [if (run < 0)] block is passed.  The
    subtractions are those of the source as long as [n], [ramp] and
    [n - ramp * 2] are below [2^53] in magnitude. *)
Record ramp_profile := { rampup : Z; run : Z; rampdown : Z }.

Definition ramping (n ramp : Z) : ramp_profile :=
  let run := n - ramp * 2 in
  if run <? 0 then
    let rampup := JS.Math_floor_half n in
    {| rampup := rampup; run := 0; rampdown := n - rampup |}
  else
    {| rampup := ramp; run := run; rampdown := ramp |}.

Definition _motorCommand (command port n speed ramp : Z) : list Z :=
  let '(speed, n) := normalize n speed in
  let dir := direction n speed in
  let n := JS.Math_abs n in
  let p := ramping n ramp in
  let runcmd := getRunValues (run p) in
  [ command; PRIMITIVE.LAYER; port; PRIMITIVE.NUM8; dir & 0xff;
    PRIMITIVE.NUM8; rampup p ]
  ++ (runcmd ++ [ PRIMITIVE.NUM8; rampdown p; PRIMITIVE.BRAKE ]).

(** ** The frame builder: [_applyPrefix] *)

Definition _applyPrefix (n : Z) (cmd : list Z) : list Z :=
  let len := Z.of_nat (length cmd) + 5 in
  [ len & 0xFF; (len >> 8) & 0xFF; 0x1; 0x0; 0x0; n; 0x0 ] ++ cmd.

(** Little-endian reading of a list of bytes, low byte first. *)
Fixpoint le_decode (bs : list Z) : Z :=
  match bs with
  | [] => 0
  | b :: rest => b + 256 * le_decode rest
  end.

(** ** The transport codec: [_arrayBufferToBase64] *)

Module Codec.

(** [new Uint8Array (buffer)] on an array of integers: each element modulo 256. *)
Definition Uint8Array (buffer : list Z) : list Z :=
  map (fun x => x mod 256) buffer.

Definition String_fromCharCode (c : Z) : string :=
  String (ascii_of_N (Z.to_N c)) EmptyString.

Definition charCode (a : ascii) : Z := Z.of_N (N_of_ascii a).

Definition alphabet : string :=
  "ABCDEFGHIJKLMNOPQRSTUVWXYZabcdefghijklmnopqrstuvwxyz0123456789+/".

Definition sextet (i : Z) : ascii :=
  match String.get (Z.to_nat i) alphabet with
  | Some c => c
  | None => "="%char
  end.

(** [window.btoa]: the base64 encoding (RFC 4648, with padding) of a string
    of characters whose codes are below 256. *)
Fixpoint btoa (binary : string) : string :=
  match binary with
  | String a (String b (String c rest)) =>
      let '(x, y, z) := (charCode a, charCode b, charCode c) in
      String (sextet (x / 4))
        (String (sextet (x mod 4 * 16 + y / 16))
           (String (sextet (y mod 16 * 4 + z / 64))
              (String (sextet (z mod 64)) (btoa rest))))
  | String a (String b EmptyString) =>
      let '(x, y) := (charCode a, charCode b) in
      String (sextet (x / 4))
        (String (sextet (x mod 4 * 16 + y / 16))
           (String (sextet (y mod 16 * 4)) "="))
  | String a EmptyString =>
      let x := charCode a in
      String (sextet (x / 4)) (String (sextet (x mod 4 * 16)) "==")
  | EmptyString => EmptyString
  end.

(** The [for] loop appends one character per byte to [binary]. *)
Definition _arrayBufferToBase64 (buffer : list Z) : string :=
  let bytes := Uint8Array buffer in
  let binary :=
    fold_left (fun binary b => (binary ++ String_fromCharCode b)%string)
      bytes EmptyString in
  btoa binary.

End Codec.

(** ** Block arguments and menus *)

Inductive jsvalue := Num (z : Z) | Str (s : string).

(** Modelled from the spec: [Cast.toNumber] of [util/cast], which is not among
    the sources.  The dispatcher "converts seconds to milliseconds" from the
    caller's arguments, so the cast yields the number an argument denotes.
    The model covers whole numbers only: an integer is itself and a string
    that is a plain integer numeral (as [String] prints one) is that integer.
    Fractional numbers and the other numerals of JavaScript (["0.5"], ["1e3"],
    [" 2 "], ["+3"], ["0x10"]) are outside the model, which gives 0 for such
    strings; statements about what a block sends are made for arguments the
    model covers. *)
Definition Cast_toNumber (v : jsvalue) : Z :=
  match v with
  | Num z => z
  | Str s =>
      match NilZero.int_of_string s with
      | Some i => Z.of_int i
      | None => 0
      end
  end.

Module Menu.
Record item := { text : string; value : string }.
End Menu.

(** [info.map ((entry, index) => ...)], with the index made explicit. *)
Fixpoint _buildMenu_from (index : Z) (info : list Info.t) : list Menu.item :=
  match info with
  | [] => []
  | entry :: rest =>
      {| Menu.text := Info.name entry; Menu.value := JS.String_of (index + 1) |}
      :: _buildMenu_from (index + 1) rest
  end.

Definition _buildMenu (info : list Info.t) : list Menu.item :=
  _buildMenu_from 0 info.

(** The [motorPorts] menu of [getInfo]. *)
Definition motorPorts : list Menu.item := _buildMenu MOTOR_PORTS.

(** The value a block receives in [args.PORT] when the user picks the menu
    entry shown as [text]. *)
Definition menu_pick (menu : list Menu.item) (text : string) : option jsvalue :=
  match find (fun it => String.eqb (Menu.text it) text) menu with
  | Some it => Some (Str (Menu.value it))
  | None => None
  end.

Record block_args := { PORT : jsvalue; TIME : jsvalue }.

(** ** The extension object and the Scratch Link socket

    The fields of the object are [connected] and [speed].  The effects on
    [this.bt] are recorded in the same record: the calls made to
    [requestDevice], [connectDevice] and [sendMessage], in order, and the
    [connectDevice] promises that have not settled yet.  What [log] and
    [console.log] print is kept as well. *)

Record bt_message := { message : string; encoding : string }.

Inductive log_entry :=
| Log_override
| Log_discovered (peripheralId : string)
| Log_received
| Log_requestDevice_resolved
| Log_requestDevice_rejected
| Log_connectDevice_resolved
| Log_connectDevice_rejected.

Record Scratch3Ev3Blocks := {
  connected : bool;
  speed : Z;
  scan_timer : option Z;                 (* the [setTimeout] of the constructor *)
  requestDevice_calls : list (Z * Z);    (* major and minor device class *)
  connectDevice_calls : list string;     (* peripheral ids *)
  connectDevice_pending : list string;   (* promises awaiting their result *)
  sendMessage_calls : list bt_message;
  logged : list log_entry
}.

Definition set_connected (b : bool) (this : Scratch3Ev3Blocks) :=
  {| connected := b; speed := speed this; scan_timer := scan_timer this;
     requestDevice_calls := requestDevice_calls this;
     connectDevice_calls := connectDevice_calls this;
     connectDevice_pending := connectDevice_pending this;
     sendMessage_calls := sendMessage_calls this; logged := logged this |}.

Definition set_scan_timer (t : option Z) (this : Scratch3Ev3Blocks) :=
  {| connected := connected this; speed := speed this; scan_timer := t;
     requestDevice_calls := requestDevice_calls this;
     connectDevice_calls := connectDevice_calls this;
     connectDevice_pending := connectDevice_pending this;
     sendMessage_calls := sendMessage_calls this; logged := logged this |}.

Definition log (e : log_entry) (this : Scratch3Ev3Blocks) :=
  {| connected := connected this; speed := speed this;
     scan_timer := scan_timer this;
     requestDevice_calls := requestDevice_calls this;
     connectDevice_calls := connectDevice_calls this;
     connectDevice_pending := connectDevice_pending this;
     sendMessage_calls := sendMessage_calls this;
     logged := logged this ++ [e] |}.

Definition bt_requestDevice (major minor : Z) (this : Scratch3Ev3Blocks) :=
  {| connected := connected this; speed := speed this;
     scan_timer := scan_timer this;
     requestDevice_calls := requestDevice_calls this ++ [(major, minor)];
     connectDevice_calls := connectDevice_calls this;
     connectDevice_pending := connectDevice_pending this;
     sendMessage_calls := sendMessage_calls this; logged := logged this |}.

Definition bt_connectDevice (peripheralId : string) (this : Scratch3Ev3Blocks) :=
  {| connected := connected this; speed := speed this;
     scan_timer := scan_timer this;
     requestDevice_calls := requestDevice_calls this;
     connectDevice_calls := connectDevice_calls this ++ [peripheralId];
     connectDevice_pending := connectDevice_pending this ++ [peripheralId];
     sendMessage_calls := sendMessage_calls this; logged := logged this |}.

Definition set_pending (l : list string) (this : Scratch3Ev3Blocks) :=
  {| connected := connected this; speed := speed this;
     scan_timer := scan_timer this;
     requestDevice_calls := requestDevice_calls this;
     connectDevice_calls := connectDevice_calls this;
     connectDevice_pending := l;
     sendMessage_calls := sendMessage_calls this; logged := logged this |}.

Definition bt_sendMessage (m : bt_message) (this : Scratch3Ev3Blocks) :=
  {| connected := connected this; speed := speed this;
     scan_timer := scan_timer this;
     requestDevice_calls := requestDevice_calls this;
     connectDevice_calls := connectDevice_calls this;
     connectDevice_pending := connectDevice_pending this;
     sendMessage_calls := sendMessage_calls this ++ [m]; logged := logged this |}.

(** The constructor: nothing has been called on the socket yet, and the
    timer that will start the scan is set to 500 ms. *)
Definition constructor : Scratch3Ev3Blocks :=
  {| connected := false; speed := 50; scan_timer := Some 500;
     requestDevice_calls := []; connectDevice_calls := [];
     connectDevice_pending := []; sendMessage_calls := []; logged := [] |}.

(** ** The connection manager *)

Definition _scan (this : Scratch3Ev3Blocks) : Scratch3Ev3Blocks :=
  bt_requestDevice 8 1 this.

(** The two callbacks given to [then] in [_scan]. *)
Definition _scan_then (resolved : bool) (this : Scratch3Ev3Blocks) :=
  if resolved then log Log_requestDevice_resolved this
  else log Log_requestDevice_rejected this.

Definition _connect (peripheralId : string) (this : Scratch3Ev3Blocks) :=
  bt_connectDevice peripheralId (set_connected true this).

(** The two callbacks given to [then] in [_connect]. *)
Definition _connect_then (resolved : bool) (this : Scratch3Ev3Blocks) :=
  if resolved then log Log_connectDevice_resolved this
  else log Log_connectDevice_rejected (set_connected false this).

(** The methods Scratch Link may call. *)
Inductive bt_method :=
| didDiscoverPeripheral (peripheralId : string)
| didReceiveMessage
| other_method (method : string).

(** [this.bt.didReceiveCall]; the result is what the arrow function returns,
    [None] standing for [undefined]. *)
Definition didReceiveCall (method : bt_method) (this : Scratch3Ev3Blocks)
  : Scratch3Ev3Blocks * option string :=
  let this := log Log_override this in
  match method with
  | didDiscoverPeripheral peripheralId =>
      let this := log (Log_discovered peripheralId) this in
      ((if negb (connected this) then _connect peripheralId this else this),
       None)
  | didReceiveMessage => (log Log_received this, None)
  | other_method _ => (this, Some "Unknown method"%string)
  end.

(** ** The command dispatcher *)

(** What a block returns: [undefined], the promise resolved by
    [setTimeout (resolve, ms)], or the promise of [sendMessage]. *)
Inductive block_result :=
| Undefined
| Promise_timeout (ms : Z)
| Promise_sendMessage.

Definition motorTurnClockwise (args : block_args) (this : Scratch3Ev3Blocks)
  : Scratch3Ev3Blocks * block_result :=
  if negb (connected this) then (this, Undefined) else
  let port := Cast_toNumber (PORT args) in
  let time := Cast_toNumber (TIME args) * 1000 in
  let cmd := _applyPrefix 0 (_motorCommand PRIMITIVE.TIMESPEED port time
                               (speed this) PRIMITIVE.LONGRAMP) in
  let this := bt_sendMessage {| message := Codec._arrayBufferToBase64 cmd;
                                encoding := "base64" |} this in
  (this, Promise_timeout time).

Definition motorTurnCounterClockwise (args : block_args)
  (this : Scratch3Ev3Blocks) : Scratch3Ev3Blocks * block_result :=
  if negb (connected this) then (this, Undefined) else
  let port := Cast_toNumber (PORT args) in
  let time := Cast_toNumber (TIME args) * 1000 in
  let cmd := _applyPrefix 0 (_motorCommand PRIMITIVE.TIMESPEED port time
                               (speed this * -1) PRIMITIVE.LONGRAMP) in
  let this := bt_sendMessage {| message := Codec._arrayBufferToBase64 cmd;
                                encoding := "base64" |} this in
  (this, Promise_timeout time).

Definition beep (this : Scratch3Ev3Blocks) : Scratch3Ev3Blocks * block_result :=
  if negb (connected this) then (this, Undefined) else
  (bt_sendMessage {| message := "DwAAAIAAAJQBgQKC6AOC6AM=";
                     encoding := "base64" |} this,
   Promise_sendMessage).

(** The public operations, as one type. *)
Inductive block :=
| Block_motorTurnClockwise (args : block_args)
| Block_motorTurnCounterClockwise (args : block_args)
| Block_beep.

Definition call_block (b : block) (this : Scratch3Ev3Blocks)
  : Scratch3Ev3Blocks * block_result :=
  match b with
  | Block_motorTurnClockwise args => motorTurnClockwise args this
  | Block_motorTurnCounterClockwise args => motorTurnCounterClockwise args this
  | Block_beep => beep this
  end.

(** ** Runs of the extension

    Everything happens on one event loop; an event is the constructor's timer
    firing, Scratch Link calling [didReceiveCall], a promise of [requestDevice]
    or [connectDevice] being settled, or the runtime executing a block.  A
    [connectDevice] promise can only be settled if one is pending; they are
    settled oldest first. *)

Inductive event :=
| Timer_fires
| RequestDevice_settles (resolved : bool)
| ReceiveCall (method : bt_method)
| ConnectDevice_settles (resolved : bool)
| Run_block (b : block).

Definition step (this : Scratch3Ev3Blocks) (e : event) : Scratch3Ev3Blocks :=
  match e with
  | Timer_fires =>
      match scan_timer this with
      | Some _ => _scan (set_scan_timer None this)
      | None => this
      end
  | RequestDevice_settles resolved => _scan_then resolved this
  | ReceiveCall method => fst (didReceiveCall method this)
  | ConnectDevice_settles resolved =>
      match connectDevice_pending this with
      | [] => this
      | _ :: rest => _connect_then resolved (set_pending rest this)
      end
  | Run_block b => fst (call_block b this)
  end.

Definition run_events (es : list event) (this : Scratch3Ev3Blocks) :=
  fold_left step es this.

(** The discoveries of a list of peripherals, in order. *)
Definition discoveries (ids : list string) : list event :=
  map (fun id => ReceiveCall (didDiscoverPeripheral id)) ids.

(** ** Statements about the encodings

    The run values announce their width by a marker, and the payload after
    the marker is read back low byte first. *)

Definition is_byte (b : Z) : Prop := 0 <= b < 256.

(** The run values of [run] have the width [width] and the marker [marker],
    consist of bytes, and their payload reads back as [run]. *)
Definition run_encoded (marker : Z) (width : nat) (run : Z) : Prop :=
  length (getRunValues run) = width
  /\ hd 0 (getRunValues run) = marker
  /\ Forall is_byte (getRunValues run)
  /\ le_decode (tl (getRunValues run)) = run.

(** Three bytes under [0x7FFF], five bytes from [0x7FFF] on, and the value
    recovered in both cases. *)
Definition run_roundtrip (run : Z) : Prop :=
  (run < 0x7FFF -> run_encoded PRIMITIVE.NUM16 3 run)
  /\ (run >= 0x7FFF -> run_encoded PRIMITIVE.NUM32 5 run).

(** The byte put at the direction position: the source's [dir & 0xff], with
    [dir] computed from the normalised [speed] and [n]. *)
Definition dir_byte (n speed : Z) : Z :=
  let '(speed', n') := normalize n speed in direction n' speed' & 0xff.

(** A frame as the frame builder is meant to lay it out: seven bytes, then the
    instruction, the first two bytes reading back as the instruction length
    plus 5. *)
Definition framed (n : Z) (cmd : list Z) : Prop :=
  exists lo hi,
    _applyPrefix n cmd = [ lo; hi; 0x01; 0x00; 0x00; n; 0x00 ] ++ cmd
    /\ is_byte lo /\ is_byte hi
    /\ le_decode [ lo; hi ] = Z.of_nat (length cmd) + 5.

(** ** Statements about the dispatcher and the connection *)

(** An extension whose scan has started, which has discovered the peripheral
    ["ev3"], and whose connect request has been acknowledged. *)
Definition linked : Scratch3Ev3Blocks :=
  run_events
    [ Timer_fires; ReceiveCall (didDiscoverPeripheral "ev3");
      ConnectDevice_settles true ]
    constructor.

(** Turning clockwise on port A for one second: the menu entry A carries the
    value ["1"]. *)
Definition turn_A_1s : block_args := {| PORT := Str "1"; TIME := Num 1 |}.

(** [turn_A_1s] encodes the 13 bytes [instruction], frames them with the
    length field 18, sends the base64 text of the frame as one message, and
    returns the promise of a 1000 ms timer. *)
Definition turn_sends (instruction : list Z) (this : Scratch3Ev3Blocks) : Prop :=
  _motorCommand PRIMITIVE.TIMESPEED 1 1000 (speed this) PRIMITIVE.LONGRAMP
    = instruction
  /\ length instruction = 13%nat
  /\ _applyPrefix 0 instruction = [ 18; 0; 1; 0; 0; 0; 0 ] ++ instruction
  /\ motorTurnClockwise turn_A_1s this =
       (bt_sendMessage
          {| message := Codec._arrayBufferToBase64 (_applyPrefix 0 instruction);
             encoding := "base64" |} this,
        Promise_timeout 1000)
  /\ sendMessage_calls (fst (motorTurnClockwise turn_A_1s this)) =
       sendMessage_calls this
       ++ [ {| message := Codec._arrayBufferToBase64 (_applyPrefix 0 instruction);
               encoding := "base64" |} ].

(** The instruction with a run length of 0, and the one with the run length
    900 = 0x0384. *)
Definition instruction_run_0 : list Z :=
  [ PRIMITIVE.TIMESPEED; 0; 1; 0x81; 50; 0x81; 50; 0x82; 0; 0; 0x81; 50; 1 ].

Definition instruction_run_900 : list Z :=
  [ PRIMITIVE.TIMESPEED; 0; 1; 0x81; 50; 0x81; 50; 0x82; 0x84; 0x03; 0x81; 50; 1 ].

(** Two states of the extension that differ at most in what has been logged. *)
Definition same_link (a b : Scratch3Ev3Blocks) : Prop :=
  connected a = connected b
  /\ speed a = speed b
  /\ scan_timer a = scan_timer b
  /\ requestDevice_calls a = requestDevice_calls b
  /\ connectDevice_calls a = connectDevice_calls b
  /\ connectDevice_pending a = connectDevice_pending b
  /\ sendMessage_calls a = sendMessage_calls b.

(** The states the extension can be in. *)
Definition reachable (this : Scratch3Ev3Blocks) : Prop :=
  exists es, this = run_events es constructor.

(** "Never Connected while the connect result is still pending". *)
Definition not_connected_while_pending (this : Scratch3Ev3Blocks) : Prop :=
  connected this = true -> connectDevice_pending this = [].

(** What holds instead: at most one connect request is pending, and while it
    is the flag is already set. *)
Definition pending_is_connected (this : Scratch3Ev3Blocks) : Prop :=
  connectDevice_pending this = []
  \/ (connected this = true /\ exists id, connectDevice_pending this = [id]).

(** The extension after its first discovery, the connect request still
    pending. *)
Definition connecting : Scratch3Ev3Blocks :=
  run_events [ Timer_fires; ReceiveCall (didDiscoverPeripheral "ev3") ]
    constructor.

(** ** Reading the base64 text back

    The receiving side of the codec, used to state that no byte of a frame is
    lost in the text: the position of a character in the alphabet, and the
    bytes denoted by a padded base64 text ([None] when the text is not one). *)

Fixpoint index_of (c : ascii) (s : string) : option Z :=
  match s with
  | EmptyString => None
  | String a rest =>
      if Ascii.eqb a c then Some 0 else option_map Z.succ (index_of c rest)
  end.

Definition unsextet (c : ascii) : option Z := index_of c Codec.alphabet.

Fixpoint base64_decode (s : string) : option (list Z) :=
  match s with
  | EmptyString => Some []
  | String a (String b (String c (String d rest))) =>
      match unsextet a, unsextet b with
      | Some x, Some y =>
          if Ascii.eqb d "=" then
            match rest with
            | EmptyString =>
                if Ascii.eqb c "=" then Some [ x * 4 + y / 16 ]
                else
                  match unsextet c with
                  | Some z => Some [ x * 4 + y / 16; y mod 16 * 16 + z / 4 ]
                  | None => None
                  end
            | String _ _ => None
            end
          else
            match unsextet c, unsextet d, base64_decode rest with
            | Some z, Some w, Some bytes =>
                Some (x * 4 + y / 16 :: y mod 16 * 16 + z / 4
                      :: z mod 4 * 64 + w :: bytes)
            | _, _, _ => None
            end
      | _, _ => None
      end
  | _ => None
  end.

(** The string whose characters have the given codes. *)
Fixpoint chars (bytes : list Z) : string :=
  match bytes with
  | [] => EmptyString
  | b :: rest => String (ascii_of_N (Z.to_N b)) (chars rest)
  end.

(** A sextet comes back from its character, which is not the padding. *)
Definition sextet_ok (i : Z) : bool :=
  match unsextet (Codec.sextet i) with
  | Some j => (j =? i) && negb (Ascii.eqb (Codec.sextet i) "=")
  | None => false
  end.

(** ** Counting events *)

Definition is_rejection (e : event) : bool :=
  match e with ConnectDevice_settles false => true | _ => false end.

Definition is_discovery (e : event) : bool :=
  match e with ReceiveCall (didDiscoverPeripheral _) => true | _ => false end.

Definition is_block (e : event) : bool :=
  match e with Run_block _ => true | _ => false end.

Definition count (f : event -> bool) (es : list event) : nat :=
  length (filter f es).

(** The connect request has been acknowledged: the flag is set and no
    connect result is awaited.  This is the state the spec calls Connected;
    while a result is awaited the spec's state is Connecting. *)
Definition acknowledged (this : Scratch3Ev3Blocks) : Prop :=
  connected this = true /\ connectDevice_pending this = [].

(** Running the block [b] adds no call of [sendMessage]. *)
Definition sends_nothing (b : block) (this : Scratch3Ev3Blocks) : Prop :=
  sendMessage_calls (fst (call_block b this)) = sendMessage_calls this.

(** An argument that denotes the integer [z]: the number itself, or its
    decimal numeral (the form of the menu values). *)
Definition denotes (v : jsvalue) (z : Z) : Prop :=
  v = Num z \/ v = Str (JS.String_of z).

(** * Properties *)

(** ** Integer operators *)

Lemma ToInt32_eqm (x : Z) : exists k, JS.ToInt32 x = x + k * 2 ^ 32.
Proof.
  unfold JS.ToInt32.
  exists (- ((x + 2 ^ 31) / 2 ^ 32)).
  pose proof (Z.div_mod (x + 2 ^ 31) (2 ^ 32) ltac:(lia)). lia.
Qed.

Lemma ToInt32_range (x : Z) : - 2 ^ 31 <= JS.ToInt32 x < 2 ^ 31.
Proof.
  unfold JS.ToInt32.
  pose proof (Z.mod_pos_bound (x + 2 ^ 31) (2 ^ 32) ltac:(lia)). lia.
Qed.

Lemma ToInt32_small (x : Z) : - 2 ^ 31 <= x < 2 ^ 31 -> JS.ToInt32 x = x.
Proof.
  intros H. unfold JS.ToInt32.
  rewrite Z.mod_small by lia. lia.
Qed.

(** Masking with [0xff] keeps the low byte, for every integer. *)
Lemma band_0xff (x : Z) : x & 0xff = x mod 256.
Proof.
  unfold JS.band.
  rewrite (ToInt32_small 0xff) by lia.
  change 0xff with (Z.ones 8).
  rewrite Z.land_ones by lia.
  destruct (ToInt32_eqm x) as [k ->].
  change (2 ^ 32) with (2 ^ 24 * 2 ^ 8).
  rewrite Z.mul_assoc, Z.mod_add by lia. reflexivity.
Qed.

(** Shifting by [8 * i] and masking selects byte [i], for [i] from 0 to 3. *)
Lemma shr_band_byte (x : Z) (i : Z) :
  0 <= i <= 3 -> (x >> (8 * i)) & 0xff = (x / 2 ^ (8 * i)) mod 256.
Proof.
  intros Hi. rewrite band_0xff. unfold JS.shr.
  rewrite (Z.mod_small (8 * i)) by lia.
  rewrite Z.shiftr_div_pow2 by lia.
  destruct (ToInt32_eqm x) as [k ->].
  replace (2 ^ 32) with (2 ^ (32 - 8 * i) * 2 ^ (8 * i))
    by (rewrite <- Z.pow_add_r by lia; f_equal; lia).
  rewrite Z.mul_assoc, Z.div_add by lia.
  replace (2 ^ (32 - 8 * i)) with (2 ^ (24 - 8 * i) * 256)
    by (change 256 with (2 ^ 8); rewrite <- Z.pow_add_r by lia; f_equal; lia).
  rewrite Z.mul_assoc, Z.mod_add by lia. reflexivity.
Qed.

Lemma band_0xff_range (x : Z) : 0 <= x & 0xff < 256.
Proof. rewrite band_0xff. apply Z.mod_pos_bound. lia. Qed.

(** ** The command encoder *)

(** The shape of every motor command: seven leading elements, the run values,
    three trailing elements. *)
Lemma _motorCommand_shape (command port n speed ramp : Z) :
  let '(speed', n') := normalize n speed in
  let p := ramping (JS.Math_abs n') ramp in
  _motorCommand command port n speed ramp =
    [ command; PRIMITIVE.LAYER; port; PRIMITIVE.NUM8;
      direction n' speed' & 0xff; PRIMITIVE.NUM8; rampup p ]
    ++ getRunValues (run p)
    ++ [ PRIMITIVE.NUM8; rampdown p; PRIMITIVE.BRAKE ].
Proof.
  unfold _motorCommand. destruct (normalize n speed) as [speed' n'].
  reflexivity.
Qed.

(** Normalisation leaves the magnitude of the duration alone. *)
Lemma normalize_abs (n speed : Z) :
  JS.Math_abs (snd (normalize n speed)) = Z.abs n.
Proof.
  unfold normalize, JS.Math_abs. destruct (speed <? 0); cbn [snd]; lia.
Qed.

Lemma ramping_sum (n ramp : Z) :
  rampup (ramping n ramp) + run (ramping n ramp) + rampdown (ramping n ramp) = n.
Proof.
  unfold ramping. destruct (n - ramp * 2 <? 0); simpl; lia.
Qed.

Lemma ramping_short (n ramp : Z) :
  2 * ramp > n ->
  ramping n ramp =
    {| rampup := n / 2; run := 0; rampdown := n - n / 2 |}.
Proof.
  intros H. unfold ramping, JS.Math_floor_half.
  destruct (Z.ltb_spec (n - ramp * 2) 0); [reflexivity | lia].
Qed.

Lemma ramping_long (n ramp : Z) :
  2 * ramp <= n ->
  ramping n ramp =
    {| rampup := ramp; run := n - 2 * ramp; rampdown := ramp |}.
Proof.
  intros H. unfold ramping.
  destruct (Z.ltb_spec (n - ramp * 2) 0); [lia | f_equal; lia].
Qed.

(** C1.  For a non-negative duration [d] and a ramp constant [r], both
    integers that JavaScript represents exactly together with [d - 2 r]
    (magnitudes below [2^53]), whatever the command, port and speed, the motor
    command carries a ramp-up [up], the run values of a steady run [steady]
    and a ramp-down [down] such that: when [2 r > d], [up + down = d] and
    [steady = 0]; when [2 r <= d], [up = down = r] and [steady = d - 2 r];
    and always [up + steady + down = d]. *)
Theorem C1_ramp_profile (command port d speed r : Z) :
  0 <= d < 2 ^ 53 -> Z.abs r < 2 ^ 53 -> Z.abs (d - 2 * r) < 2 ^ 53 ->
  exists dir up steady down,
    _motorCommand command port d speed r =
      [ command; PRIMITIVE.LAYER; port; PRIMITIVE.NUM8; dir;
        PRIMITIVE.NUM8; up ]
      ++ getRunValues steady ++ [ PRIMITIVE.NUM8; down; PRIMITIVE.BRAKE ]
    /\ (2 * r > d -> up + down = d /\ steady = 0)
    /\ (2 * r <= d -> up = r /\ down = r /\ steady = d - 2 * r)
    /\ up + steady + down = d.
Proof.
  intros [Hd _] _ _.
  pose proof (_motorCommand_shape command port d speed r) as Hshape.
  pose proof (normalize_abs d speed) as Habs.
  destruct (normalize d speed) as [speed' n']. simpl in Habs, Hshape.
  rewrite Habs, Z.abs_eq in Hshape by assumption.
  exists (direction n' speed' & 0xff), (rampup (ramping d r)),
    (run (ramping d r)), (rampdown (ramping d r)).
  split; [exact Hshape |].
  split; [| split].
  - intros Hshort. rewrite (ramping_short d r Hshort). simpl. lia.
  - intros Hlong. rewrite (ramping_long d r Hlong). simpl. lia.
  - apply ramping_sum.
Qed.

Lemma C1_ramp_profile_witness :
  (0 <= 70 < 2 ^ 53 /\ Z.abs 50 < 2 ^ 53 /\ Z.abs (70 - 2 * 50) < 2 ^ 53) /\
  exists dir up steady down,
    _motorCommand 0xAF 1 70 50 50 =
      [ 0xAF; PRIMITIVE.LAYER; 1; PRIMITIVE.NUM8; dir; PRIMITIVE.NUM8; up ]
      ++ getRunValues steady ++ [ PRIMITIVE.NUM8; down; PRIMITIVE.BRAKE ]
    /\ (2 * 50 > 70 -> up + down = 70 /\ steady = 0)
    /\ (2 * 50 <= 70 -> up = 50 /\ down = 50 /\ steady = 70 - 2 * 50)
    /\ up + steady + down = 70.
Proof. split; [lia | apply (C1_ramp_profile 0xAF 1 70 50 50); lia]. Defined.

(** ** Run values *)

Lemma getRunValues_bytes (run : Z) : Forall is_byte (getRunValues run).
Proof.
  unfold getRunValues, is_byte.
  destruct (run <? 0x7fff);
    repeat (constructor; [first [apply band_0xff_range | vm_compute; intuition discriminate] |]);
    constructor.
Qed.

Lemma getRunValues_payload (run : Z) :
  le_decode (tl (getRunValues run)) =
    if run <? 0x7fff then run mod 2 ^ 16 else run mod 2 ^ 32.
Proof.
  unfold getRunValues.
  pose proof (shr_band_byte run 1 ltac:(lia)) as H1.
  pose proof (shr_band_byte run 2 ltac:(lia)) as H2.
  pose proof (shr_band_byte run 3 ltac:(lia)) as H3.
  change (8 * 1) with 8 in H1. change (8 * 2) with 16 in H2.
  change (8 * 3) with 24 in H3.
  destruct (run <? 0x7fff); cbn [tl le_decode];
    rewrite ?H1, ?H2, ?H3, band_0xff;
    change (2 ^ 8) with 256; change (2 ^ 16) with 65536;
    change (2 ^ 24) with 16777216; change (2 ^ 32) with 4294967296; Z.div_mod_to_equations; lia.
Qed.

(** The two widths, for every integer. *)
Lemma getRunValues_width (run : Z) :
  (run < 0x7FFF ->
   length (getRunValues run) = 3%nat /\ hd 0 (getRunValues run) = PRIMITIVE.NUM16)
  /\ (run >= 0x7FFF ->
      length (getRunValues run) = 5%nat /\ hd 0 (getRunValues run) = PRIMITIVE.NUM32).
Proof.
  unfold getRunValues.
  destruct (Z.ltb_spec run 0x7fff); split; intros; try lia; split; reflexivity.
Qed.

(** C2, as amended.  For every run value from 0 up to [2^32 - 1], the run
    values are 3 bytes (marker [0x82]) when [run < 0x7FFF] and 5 bytes (marker
    [0x83]) otherwise, and reading the payload low byte first gives [run]
    back. *)
Theorem C2_run_roundtrip (run : Z) :
  0 <= run < 2 ^ 32 -> run_roundtrip run.
Proof.
  intros Hrun. unfold run_roundtrip, run_encoded.
  pose proof (getRunValues_width run) as [H16 H32].
  pose proof (getRunValues_bytes run) as Hb.
  pose proof (getRunValues_payload run) as Hp.
  split; intros H.
  - destruct (H16 H) as [Hlen Hhd]. repeat split; try assumption.
    rewrite Hp. destruct (Z.ltb_spec run 0x7fff); [| lia].
    apply Z.mod_small. lia.
  - destruct (H32 H) as [Hlen Hhd]. repeat split; try assumption.
    rewrite Hp. destruct (Z.ltb_spec run 0x7fff); [lia |].
    apply Z.mod_small. lia.
Qed.

Lemma C2_run_roundtrip_witness :
  0 <= 900 < 2 ^ 32 /\ run_roundtrip 900.
Proof. split; [lia | apply (C2_run_roundtrip 900); lia]. Defined.

(** C2 fails as stated: the run value 4294967900 (the steady run of a turn of
    4294968 seconds) is at least [0x7FFF], and its five bytes
    [0x83; 0x5C; 0x02; 0; 0] read back as 604. *)
Lemma C2_counterexample : ~ run_roundtrip 4294967900.
Proof.
  unfold run_roundtrip, run_encoded. intros [_ H].
  destruct H as (_ & _ & _ & H); [lia |].
  vm_compute in H. discriminate H.
Qed.

(** That run value arises in the encoder: it is the steady run of a command
    of 4294968000 ms with the ramp constant 50. *)
Example long_turn_run_values :
  _motorCommand PRIMITIVE.TIMESPEED 1 (4294968 * 1000) 50 PRIMITIVE.LONGRAMP =
    [ 0xAF; 0; 1; 0x81; 50; 0x81; 50 ]
    ++ getRunValues 4294967900 ++ [ 0x81; 50; 1 ]
  /\ getRunValues 4294967900 = [ 0x83; 0x5C; 0x02; 0; 0 ].
Proof. vm_compute. split; reflexivity. Qed.

(** Two run values with the same encoding: no decoder recovers both. *)
Lemma getRunValues_collision :
  getRunValues 4294967900 = getRunValues (4294967900 + 2 ^ 32).
Proof. vm_compute. reflexivity. Qed.

(** A negative argument, which [_motorCommand] never passes (it replaces a
    negative run by 0), reads back as the value plus [2^16]. *)
Lemma getRunValues_negative :
  le_decode (tl (getRunValues (-1))) = 65535.
Proof. vm_compute. reflexivity. Qed.

(** ** Direction *)

Lemma _motorCommand_parts (command port n speed ramp : Z) :
  _motorCommand command port n speed ramp =
    [ command; PRIMITIVE.LAYER; port; PRIMITIVE.NUM8; dir_byte n speed;
      PRIMITIVE.NUM8; rampup (ramping (Z.abs n) ramp) ]
    ++ getRunValues (run (ramping (Z.abs n) ramp))
    ++ [ PRIMITIVE.NUM8; rampdown (ramping (Z.abs n) ramp); PRIMITIVE.BRAKE ].
Proof.
  pose proof (_motorCommand_shape command port n speed ramp) as Hshape.
  pose proof (normalize_abs n speed) as Habs.
  unfold dir_byte.
  destruct (normalize n speed) as [speed' n']. cbn [snd] in Habs.
  rewrite Habs in Hshape. exact Hshape.
Qed.

(** The direction byte in terms of the signs of the two inputs. *)
Lemma dir_byte_spec (n speed : Z) :
  dir_byte n speed =
    if speed * n <? 0 then (256 - Z.abs speed) mod 256
    else Z.abs speed mod 256.
Proof.
  unfold dir_byte, normalize, direction.
  destruct (Z.ltb_spec speed 0) as [Hs | Hs].
  - destruct (Z.ltb_spec (-1 * n) 0) as [Hn | Hn];
      destruct (Z.ltb_spec (speed * n) 0) as [Hp | Hp];
      rewrite band_0xff; try (f_equal; lia); nia.
  - destruct (Z.ltb_spec n 0) as [Hn | Hn];
      destruct (Z.ltb_spec (speed * n) 0) as [Hp | Hp];
      rewrite band_0xff; try (f_equal; lia); try nia.
    assert (speed = 0) as -> by nia. reflexivity.
Qed.

(** C3.  For every speed [s] and duration [d], the encoder gives the same
    byte sequence for [(-s, d)] as for [(s, -d)], and for [(-s, -d)] as for
    [(s, d)].  The direction byte (position 4) is [256 - |s|] when the net
    direction is negative (the signs of [s] and [d] differ) and [|s|]
    otherwise, for a speed magnitude that fits the byte. *)
Theorem C3_direction_sign_consistent (command port s d r : Z) :
  _motorCommand command port d (- s) r = _motorCommand command port (- d) s r
  /\ _motorCommand command port (- d) (- s) r = _motorCommand command port d s r
  /\ (s * d < 0 -> 1 <= Z.abs s <= 255 ->
      nth 4 (_motorCommand command port d s r) 0 = 256 - Z.abs s)
  /\ (0 <= s * d -> Z.abs s <= 255 ->
      nth 4 (_motorCommand command port d s r) 0 = Z.abs s).
Proof.
  rewrite !_motorCommand_parts, !dir_byte_spec, !Z.abs_opp.
  replace (- s * d) with (s * - d) by lia.
  replace (- s * - d) with (s * d) by lia.
  repeat split.
  - intros Hneg Hs. cbn [nth app].
    destruct (Z.ltb_spec (s * d) 0); [| lia].
    apply Z.mod_small. lia.
  - intros Hpos Hs. cbn [nth app].
    destruct (Z.ltb_spec (s * d) 0); [lia |].
    apply Z.mod_small. lia.
Qed.

Lemma C3_direction_sign_consistent_witness :
  (-40 * 100 < 0 /\ 1 <= Z.abs (-40) <= 255)
  /\ nth 4 (_motorCommand 0xAF 1 100 (-40) 50) 0 = 256 - Z.abs (-40).
Proof.
  split; [lia |].
  apply (C3_direction_sign_consistent 0xAF 1 (-40) 100 50); lia.
Defined.

Example direction_bytes :
  nth 4 (_motorCommand 0xAF 1 100 (-40) 50) 0 = 216
  /\ nth 4 (_motorCommand 0xAF 1 (-100) 40 50) 0 = 216
  /\ nth 4 (_motorCommand 0xAF 1 (-100) (-40) 50) 0 = 40
  /\ nth 4 (_motorCommand 0xAF 1 100 40 50) 0 = 40.
Proof. vm_compute. repeat split. Qed.

(** ** Ports *)

(** The port argument is placed, as it is, at position 2 of the instruction,
    which is position 9 of the frame. *)
Lemma port_position (n command port time speed ramp : Z) :
  nth 2 (_motorCommand command port time speed ramp) 0 = port
  /\ nth 9 (_applyPrefix n (_motorCommand command port time speed ramp)) 0 = port.
Proof. rewrite _motorCommand_parts. split; reflexivity. Qed.

(** The menu offers the one-based index of each port, not its [value]. *)
Lemma motorPorts_values :
  map (fun it => (Menu.text it, Menu.value it)) motorPorts =
    [ ("A", "1"); ("B", "2"); ("C", "3"); ("D", "4") ]%string.
Proof. reflexivity. Qed.

(** C4 (what the code does).  Ports A and B are sent as their bit flags 1 and
    2.  Port C, whose bit flag in [MOTOR_PORTS] is 4, reaches the block as the
    menu value ["3"], and the frame sent for it carries 3 at the port position;
    port D, whose bit flag is 8, is sent as 4. *)
Theorem C4_port_byte_is_menu_index :
  map Info.value MOTOR_PORTS = [ 1; 2; 4; 8 ]
  /\ map (fun it => Cast_toNumber (Str (Menu.value it))) motorPorts = [ 1; 2; 3; 4 ]
  /\ menu_pick motorPorts "C" = Some (Str "3")
  /\ motorTurnClockwise {| PORT := Str "3"; TIME := Num 1 |} linked =
       (bt_sendMessage
          {| message :=
               Codec._arrayBufferToBase64
                 ([ 18; 0; 1; 0; 0; 0; 0 ]
                  ++ [ 0xAF; 0; 3; 0x81; 50; 0x81; 50; 0x82; 0x84; 0x03;
                       0x81; 50; 1 ]);
             encoding := "base64" |} linked,
        Promise_timeout 1000).
Proof. vm_compute. repeat split. Qed.

(** ** The frame builder *)

Lemma _applyPrefix_length_field (n : Z) (cmd : list Z) :
  le_decode (firstn 2 (_applyPrefix n cmd)) =
    (Z.of_nat (length cmd) + 5) mod 2 ^ 16.
Proof.
  unfold _applyPrefix. cbn [firstn app le_decode].
  pose proof (shr_band_byte (Z.of_nat (length cmd) + 5) 1 ltac:(lia)) as H1.
  change (8 * 1) with 8 in H1. rewrite H1, band_0xff.
  change (2 ^ 8) with 256. change (2 ^ 16) with 65536.
  Z.div_mod_to_equations; lia.
Qed.




(** The length field has two bytes: for an array of 65531 elements, which
    the encoder never produces, the length plus 5 is 65536 and both bytes of
    the field are 0. *)
Lemma length_field_wraps : ~ framed 0 (repeat 0 (Z.to_nat 65531)).
Proof.
  intros (lo & hi & Heq & _ & _ & Hdec).
  pose proof (_applyPrefix_length_field 0 (repeat 0 (Z.to_nat 65531))) as Hfield.
  rewrite Heq in Hfield. cbn [firstn app] in Hfield.
  rewrite Hfield, repeat_length in Hdec.
  vm_compute in Hdec. discriminate Hdec.
Qed.

(** ** The dispatcher *)

(** The literal message of [beep] is the base64 text of a frame of 17 bytes
    whose length field is 15. *)
Lemma beep_message :
  Codec._arrayBufferToBase64
    [ 0x0F; 0; 0; 0; 0x80; 0; 0; 0x94; 1; 0x81; 2; 0x82; 0xE8; 3; 0x82; 0xE8; 3 ]
  = "DwAAAIAAAJQBgQKC6AOC6AM="%string.
Proof. vm_compute. reflexivity. Qed.

(** C5, as amended.  While connected and with the default speed 50, turning
    clockwise on port A for 1 second encodes the instruction
    [0xAF; 0; 1; 0x81; 50; 0x81; 50; 0x82; 0x84; 0x03; 0x81; 50; 1] (the
    steady run is 1000 - 2 * 50 = 900 = 0x0384), frames it with the length
    field 13 + 5 = 18, sends the base64 text of the frame in one message, and
    returns a promise resolved by a timer of 1000 ms. *)
Theorem C5_turn_clockwise_A_1s (this : Scratch3Ev3Blocks) :
  connected this = true -> speed this = 50 ->
  turn_sends instruction_run_900 this
  /\ Codec._arrayBufferToBase64 (_applyPrefix 0 instruction_run_900)
     = "EgABAAAAAK8AAYEygTKChAOBMgE="%string.
Proof.
  intros Hc Hs. unfold turn_sends, motorTurnClockwise.
  rewrite Hc, Hs. cbn [negb fst].
  change (Cast_toNumber (PORT turn_A_1s)) with 1.
  change (Cast_toNumber (TIME turn_A_1s) * 1000) with 1000.
  change (_motorCommand PRIMITIVE.TIMESPEED 1 1000 50 PRIMITIVE.LONGRAMP)
    with instruction_run_900.
  repeat split.
Qed.

Lemma C5_turn_clockwise_A_1s_witness :
  (connected linked = true /\ speed linked = 50)
  /\ turn_sends instruction_run_900 linked.
Proof.
  split; [split; reflexivity |].
  apply (C5_turn_clockwise_A_1s linked); reflexivity.
Defined.

(** C5 fails as stated: the instruction encoded for a 1 second turn is not
    the one with the run bytes [lo(0); hi(0)]. *)
Lemma C5_counterexample : ~ turn_sends instruction_run_0 linked.
Proof. intros [H _]. vm_compute in H. discriminate H. Qed.

(** C7, as amended.  While the [connected] flag is false (no connect request
    has been issued, or the last one has failed), each of the three blocks
    returns [undefined] at once and leaves the extension as it was; in
    particular no call of [sendMessage] is added. *)
Theorem C7_no_send_when_disconnected (b : block) (this : Scratch3Ev3Blocks) :
  connected this = false ->
  call_block b this = (this, Undefined)
  /\ sendMessage_calls (fst (call_block b this)) = sendMessage_calls this.
Proof.
  intros H.
  assert (call_block b this = (this, Undefined)) as Heq.
  { destruct b; cbn [call_block];
      unfold motorTurnClockwise, motorTurnCounterClockwise, beep;
      rewrite H; reflexivity. }
  rewrite Heq. split; reflexivity.
Qed.

Lemma C7_no_send_when_disconnected_witness :
  connected constructor = false
  /\ call_block (Block_motorTurnClockwise turn_A_1s) constructor
     = (constructor, Undefined).
Proof.
  split; [reflexivity |].
  apply (C7_no_send_when_disconnected (Block_motorTurnClockwise turn_A_1s)
           constructor).
  reflexivity.
Defined.

(** C7 fails as stated: after the first discovery the connect result is
    still awaited, so the state is not Connected, and yet each of the three
    blocks hands a message to [sendMessage]. *)
Lemma C7_counterexample :
  ~ acknowledged connecting
  /\ connectDevice_pending connecting = [ "ev3"%string ]
  /\ ~ sends_nothing (Block_motorTurnClockwise turn_A_1s) connecting
  /\ ~ sends_nothing (Block_motorTurnCounterClockwise turn_A_1s) connecting
  /\ ~ sends_nothing Block_beep connecting.
Proof.
  split; [intros [_ H]; discriminate H |].
  split; [reflexivity |].
  unfold sends_nothing.
  split; [| split]; intros H; apply (f_equal (@length bt_message)) in H;
    vm_compute in H; discriminate H.
Qed.

(** ** The connection *)

Lemma run_events_app (es es' : list event) (this : Scratch3Ev3Blocks) :
  run_events (es ++ es') this = run_events es' (run_events es this).
Proof. apply fold_left_app. Qed.

(** A block never touches the link: it may only add a message. *)
Lemma call_block_link (b : block) (this : Scratch3Ev3Blocks) :
  connected (fst (call_block b this)) = connected this
  /\ connectDevice_calls (fst (call_block b this)) = connectDevice_calls this
  /\ connectDevice_pending (fst (call_block b this)) = connectDevice_pending this.
Proof.
  destruct b; cbn [call_block];
    unfold motorTurnClockwise, motorTurnCounterClockwise, beep;
    destruct (connected this) eqn:Hc; cbn; auto.
Qed.

(** A discovery while the flag is set changes nothing but the log. *)
Lemma discovery_ignored (id : string) (this : Scratch3Ev3Blocks) :
  connected this = true ->
  same_link (step this (ReceiveCall (didDiscoverPeripheral id))) this.
Proof.
  intros Hc. unfold same_link. cbn. rewrite Hc. cbn. repeat split; auto.
Qed.

(** A discovery while the flag is clear issues a connect request. *)
Lemma discovery_connects (id : string) (this : Scratch3Ev3Blocks) :
  connected this = false ->
  let this' := step this (ReceiveCall (didDiscoverPeripheral id)) in
  connected this' = true
  /\ connectDevice_calls this' = connectDevice_calls this ++ [id]
  /\ connectDevice_pending this' = connectDevice_pending this ++ [id]
  /\ requestDevice_calls this' = requestDevice_calls this
  /\ sendMessage_calls this' = sendMessage_calls this.
Proof.
  intros Hc. cbn. rewrite Hc. cbn. repeat split; auto.
Qed.

Lemma discoveries_ignored (ids : list string) (this : Scratch3Ev3Blocks) :
  connected this = true ->
  same_link (run_events (discoveries ids) this) this.
Proof.
  revert this. induction ids as [| id ids IH]; intros this Hc.
  - unfold same_link. cbn. repeat split.
  - cbn [discoveries map run_events fold_left].
    pose proof (discovery_ignored id this Hc) as Hstep.
    set (this' := step this (ReceiveCall (didDiscoverPeripheral id))) in *.
    assert (connected this' = true) as Hc'
      by (destruct Hstep as [-> _]; exact Hc).
    specialize (IH this' Hc'). fold (discoveries ids) in *.
    fold (run_events (discoveries ids) this').
    unfold same_link in *.
    repeat match goal with H : _ /\ _ |- _ => destruct H end.
    repeat split; etransitivity; eassumption.
Qed.

(** The relation between the flag and the pending connect is kept by every
    event. *)
Lemma pending_is_connected_step (this : Scratch3Ev3Blocks) (e : event) :
  pending_is_connected this -> pending_is_connected (step this e).
Proof.
  unfold pending_is_connected. intros Hinv. destruct e as [| r | m | r | b].
  - cbn. destruct (scan_timer this); cbn; exact Hinv.
  - destruct r; cbn; exact Hinv.
  - destruct m as [id | |]; cbn; try exact Hinv.
    assert (connected this = true \/ connected this = false) as [Hc | Hc]
      by (destruct (connected this); auto);
      rewrite Hc; cbn.
    + destruct Hinv as [Hnil | [_ Hone]]; [left | right; split]; auto.
    + destruct Hinv as [Hnil | [Htrue _]]; [| congruence].
      right. split; [reflexivity |]. exists id. rewrite Hnil. reflexivity.
  - cbn [step]. destruct (connectDevice_pending this) as [| id rest] eqn:Hp.
    + left. exact Hp.
    + destruct Hinv as [Hnil | [_ [id' Hone]]]; [discriminate |].
      injection Hone as _ ->. left. destruct r; reflexivity.
  - cbn [step]. destruct (call_block_link b this) as (-> & _ & ->). exact Hinv.
Qed.

Lemma pending_is_connected_reachable (this : Scratch3Ev3Blocks) :
  reachable this -> pending_is_connected this.
Proof.
  intros [es ->]. induction es as [| e es IH] using rev_ind.
  - left. reflexivity.
  - rewrite run_events_app. cbn [run_events fold_left].
    apply pending_is_connected_step. exact IH.
Qed.

(** C8, as amended.  The [connected] flag is set as soon as a connect request
    is issued, before its result is known; it stays as it is when the request
    is acknowledged, and it is cleared when the request fails.  So in every
    state the extension can reach, a pending connect request means that the
    flag is already set (and there is at most one such request). *)
Theorem C8_connected_flag (this : Scratch3Ev3Blocks) :
  reachable this ->
  (forall id,
     connected (_connect id this) = true
     /\ connectDevice_pending (_connect id this)
        = connectDevice_pending this ++ [id])
  /\ connected (step this (ConnectDevice_settles true)) = connected this
  /\ (connectDevice_pending this <> [] ->
      connected (step this (ConnectDevice_settles false)) = false
      /\ connectDevice_pending (step this (ConnectDevice_settles false)) = [])
  /\ pending_is_connected this.
Proof.
  intros Hreach.
  pose proof (pending_is_connected_reachable this Hreach) as Hinv.
  split; [intros id; split; reflexivity |].
  split; [cbn [step]; destruct (connectDevice_pending this); reflexivity |].
  split; [| exact Hinv].
  intros Hp. cbn [step].
  destruct Hinv as [Hnil | [_ [id Hone]]]; [contradiction |].
  rewrite Hone. split; reflexivity.
Qed.

Lemma reachable_run (es : list event) : reachable (run_events es constructor).
Proof. exists es. reflexivity. Qed.

Lemma C8_connected_flag_witness :
  reachable connecting
  /\ connected connecting = true
  /\ connected (step connecting (ConnectDevice_settles false)) = false.
Proof.
  split; [apply reachable_run |]. split; [reflexivity |].
  apply (C8_connected_flag connecting (reachable_run _)).
  vm_compute. discriminate.
Defined.

(** C8 fails as stated: once the first discovery has been handled, the flag
    is set although the connect request is still pending; a block run in that
    state sends its message. *)
Lemma C8_counterexample :
  reachable connecting
  /\ ~ not_connected_while_pending connecting
  /\ connectDevice_pending connecting = [ "ev3"%string ]
  /\ length (sendMessage_calls (step connecting (Run_block Block_beep))) = 1%nat.
Proof.
  split; [apply reachable_run |]. split; [| split; reflexivity].
  intros H. specialize (H eq_refl). discriminate H.
Qed.

(** C9.  From a state whose flag is clear, a sequence of peer discoveries
    issues exactly one connect request, to the first peer discovered, and
    leaves the flag set.  A discovery handled while the flag is set (the
    connect request pending or acknowledged) changes nothing but the log: no
    further connect request is issued. *)
Theorem C9_first_discovery_only
  (id : string) (rest : list string) (this : Scratch3Ev3Blocks) :
  connected this = false ->
  connectDevice_calls (run_events (discoveries (id :: rest)) this)
    = connectDevice_calls this ++ [id]
  /\ connectDevice_pending (run_events (discoveries (id :: rest)) this)
     = connectDevice_pending this ++ [id]
  /\ connected (run_events (discoveries (id :: rest)) this) = true
  /\ (forall (that : Scratch3Ev3Blocks) (id' : string),
       connected that = true ->
       same_link (step that (ReceiveCall (didDiscoverPeripheral id'))) that).
Proof.
  intros Hc.
  cbn [discoveries map run_events fold_left].
  destruct (discovery_connects id this Hc) as (Hc' & Hcalls & Hpend & _).
  set (this' := step this (ReceiveCall (didDiscoverPeripheral id))) in *.
  pose proof (discoveries_ignored rest this' Hc') as Hsame.
  unfold run_events, discoveries in Hsame.
  destruct Hsame as (H1 & _ & _ & _ & H5 & H6 & _).
  rewrite H1, H5, H6.
  split; [exact Hcalls |]. split; [exact Hpend |]. split; [exact Hc' |].
  intros that id' Hthat. apply discovery_ignored. exact Hthat.
Qed.

Lemma C9_first_discovery_only_witness :
  connected constructor = false
  /\ connectDevice_calls
       (run_events (discoveries [ "ev3"; "other"; "ev3" ]%string) constructor)
     = connectDevice_calls constructor ++ [ "ev3"%string ].
Proof.
  split; [reflexivity |].
  exact (proj1 (C9_first_discovery_only "ev3" [ "other"; "ev3" ]%string
                  constructor eq_refl)).
Defined.

(** C10.  When a pending connect request fails, the flag is cleared; the next
    discovery, of whatever peer, then issues a new connect request to that peer
    and sets the flag again, the scan request being left as it was.  The flag
    is the only guard: in any state where it is clear, a discovery issues a
    connect request. *)
Theorem C10_retry_after_failure (id' : string) (this : Scratch3Ev3Blocks) :
  connectDevice_pending this <> [] ->
  connected (step this (ConnectDevice_settles false)) = false
  /\ connected
       (step (step this (ConnectDevice_settles false))
          (ReceiveCall (didDiscoverPeripheral id'))) = true
  /\ connectDevice_calls
       (step (step this (ConnectDevice_settles false))
          (ReceiveCall (didDiscoverPeripheral id')))
     = connectDevice_calls this ++ [id']
  /\ requestDevice_calls
       (step (step this (ConnectDevice_settles false))
          (ReceiveCall (didDiscoverPeripheral id')))
     = requestDevice_calls this
  /\ (forall that : Scratch3Ev3Blocks,
       connected that = false ->
       connectDevice_calls (step that (ReceiveCall (didDiscoverPeripheral id')))
       = connectDevice_calls that ++ [id']).
Proof.
  intros Hp.
  assert (connected (step this (ConnectDevice_settles false)) = false
          /\ connectDevice_calls (step this (ConnectDevice_settles false))
             = connectDevice_calls this
          /\ requestDevice_calls (step this (ConnectDevice_settles false))
             = requestDevice_calls this) as (Hc & Hcalls & Hscan).
  { cbn [step]. destruct (connectDevice_pending this); [contradiction |].
    repeat split. }
  destruct (discovery_connects id' _ Hc) as (Hc' & Hcalls' & _ & Hscan' & _).
  rewrite Hc', Hcalls', Hscan', Hcalls, Hscan.
  split; [exact Hc |]. do 3 (split; [reflexivity |]).
  intros that Hthat. apply (discovery_connects id' that Hthat).
Qed.

Lemma C10_retry_after_failure_witness :
  connectDevice_pending connecting <> []
  /\ connectDevice_calls
       (step (step connecting (ConnectDevice_settles false))
          (ReceiveCall (didDiscoverPeripheral "ev3")))
     = connectDevice_calls connecting ++ [ "ev3"%string ].
Proof.
  split; [vm_compute; discriminate |].
  apply (C10_retry_after_failure "ev3" connecting).
  vm_compute. discriminate.
Defined.

(** * Further properties of the encoder *)

(** The ramp values stay within the ramp constant, the ramp-down is the
    ramp-up or one more, and the steady run is never negative. *)
Theorem ramping_bounds (n ramp : Z) :
  0 <= n -> 0 <= ramp ->
  0 <= rampup (ramping n ramp) <= ramp
  /\ 0 <= rampdown (ramping n ramp) <= ramp
  /\ 0 <= run (ramping n ramp)
  /\ rampup (ramping n ramp) <= rampdown (ramping n ramp)
     <= rampup (ramping n ramp) + 1.
Proof.
  intros Hn Hr. unfold ramping, JS.Math_floor_half.
  destruct (Z.ltb_spec (n - ramp * 2) 0); cbn [rampup run rampdown];
    Z.div_mod_to_equations; lia.
Qed.

Lemma ramping_bounds_witness :
  (0 <= 7 /\ 0 <= 50)
  /\ rampup (ramping 7 50) <= rampdown (ramping 7 50)
     <= rampup (ramping 7 50) + 1.
Proof. split; [lia |]. apply (ramping_bounds 7 50); lia. Defined.

Lemma getRunValues_length (run : Z) :
  length (getRunValues run) = if run <? 0x7fff then 3%nat else 5%nat.
Proof. unfold getRunValues. destruct (run <? 0x7fff); reflexivity. Qed.

Lemma ramping_run (n ramp : Z) :
  run (ramping n ramp) = Z.max 0 (n - ramp * 2).
Proof.
  unfold ramping. destruct (Z.ltb_spec (n - ramp * 2) 0); cbn [run]; lia.
Qed.

(** A motor command has 13 elements when the duration left after the two
    ramps is below [0x7fff] ms (a negative rest included), and 15 otherwise. *)
Theorem motorCommand_length (command port n speed ramp : Z) :
  length (_motorCommand command port n speed ramp) =
    if Z.abs n - ramp * 2 <? 0x7fff then 13%nat else 15%nat.
Proof.
  rewrite _motorCommand_parts.
  cbn [length app]. rewrite length_app, getRunValues_length, ramping_run.
  destruct (Z.ltb_spec (Z.max 0 (Z.abs n - ramp * 2)) 0x7fff);
    destruct (Z.ltb_spec (Z.abs n - ramp * 2) 0x7fff); try lia; reflexivity.
Qed.

Lemma dir_byte_range (n speed : Z) : is_byte (dir_byte n speed).
Proof.
  unfold dir_byte. destruct (normalize n speed). apply band_0xff_range.
Qed.

(** When the opcode and the port are bytes and the ramp constant is between 0
    and 255, every element of the motor command is a byte, for every duration
    and every speed. *)
Theorem motorCommand_bytes (command port n speed ramp : Z) :
  is_byte command -> is_byte port -> 0 <= ramp <= 255 ->
  Forall is_byte (_motorCommand command port n speed ramp).
Proof.
  intros Hc Hp Hr. rewrite _motorCommand_parts.
  assert (0 <= rampup (ramping (Z.abs n) ramp) <= ramp
          /\ 0 <= rampdown (ramping (Z.abs n) ramp) <= ramp) as (Hup & Hdown).
  { unfold ramping, JS.Math_floor_half.
    destruct (Z.ltb_spec (Z.abs n - ramp * 2) 0); cbn [rampup rampdown];
      Z.div_mod_to_equations; lia. }
  assert (is_byte PRIMITIVE.LAYER /\ is_byte PRIMITIVE.NUM8
          /\ is_byte PRIMITIVE.BRAKE) as (H0 & H81 & H1)
    by (unfold is_byte; cbv; intuition discriminate).
  assert (is_byte (rampup (ramping (Z.abs n) ramp))) as Hup'
    by (unfold is_byte; lia).
  assert (is_byte (rampdown (ramping (Z.abs n) ramp))) as Hdown'
    by (unfold is_byte; lia).
  pose proof (dir_byte_range n speed) as Hdir.
  apply Forall_app. split; [| apply Forall_app; split].
  - repeat (constructor; [assumption |]). constructor.
  - apply getRunValues_bytes.
  - repeat (constructor; [assumption |]). constructor.
Qed.

Lemma motorCommand_bytes_witness :
  (is_byte 0xAF /\ is_byte 8 /\ 0 <= 50 <= 255)
  /\ Forall is_byte (_motorCommand 0xAF 8 (-70000) (-50) 50).
Proof.
  assert (is_byte 0xAF /\ is_byte 8 /\ 0 <= 50 <= 255) as H
    by (unfold is_byte; lia).
  split; [exact H |].
  apply (motorCommand_bytes 0xAF 8 (-70000) (-50) 50); apply H.
Defined.

(** The command depends on the duration and the speed only through their
    magnitudes and through whether their product is negative. *)
Theorem motorCommand_signs (command port n speed n' speed' ramp : Z) :
  Z.abs n = Z.abs n' -> Z.abs speed = Z.abs speed' ->
  (speed * n < 0 <-> speed' * n' < 0) ->
  _motorCommand command port n speed ramp
  = _motorCommand command port n' speed' ramp.
Proof.
  intros Hn Hs Hsign. rewrite !_motorCommand_parts, !dir_byte_spec, Hn, Hs.
  destruct (Z.ltb_spec (speed * n) 0); destruct (Z.ltb_spec (speed' * n') 0);
    try reflexivity; exfalso; lia.
Qed.

Lemma motorCommand_signs_witness :
  (Z.abs 3000 = Z.abs (-3000) /\ Z.abs (-50) = Z.abs 50
   /\ (-50 * 3000 < 0 <-> 50 * -3000 < 0))
  /\ _motorCommand 0xAF 1 3000 (-50) 50 = _motorCommand 0xAF 1 (-3000) 50 50.
Proof.
  split; [repeat split; lia |].
  apply (motorCommand_signs 0xAF 1 3000 (-50) (-3000) 50 50); lia.
Defined.

Lemma getRunValues_eq_inv (a b : Z) :
  0 <= a < 2 ^ 32 -> 0 <= b < 2 ^ 32 ->
  getRunValues a = getRunValues b -> a = b.
Proof.
  intros Ha Hb Heq.
  pose proof (getRunValues_payload a) as Hpa.
  pose proof (getRunValues_payload b) as Hpb.
  pose proof (f_equal (hd 0) Heq) as Hhd.
  rewrite Heq in Hpa. rewrite Hpa in Hpb. clear Hpa.
  unfold getRunValues in Hhd.
  destruct (Z.ltb_spec a 0x7fff); destruct (Z.ltb_spec b 0x7fff);
    cbn [hd] in Hhd; try discriminate Hhd;
    rewrite !Z.mod_small in Hpb by lia; exact Hpb.
Qed.

(** Below [2^32], different run values have different encodings, whichever of
    the two widths each of them takes. *)
Theorem getRunValues_injective (a b : Z) :
  0 <= a < 2 ^ 32 -> 0 <= b < 2 ^ 32 ->
  (getRunValues a = getRunValues b <-> a = b).
Proof.
  intros Ha Hb. split; [apply getRunValues_eq_inv; assumption |].
  intros ->. reflexivity.
Qed.

Lemma getRunValues_injective_witness :
  (0 <= 900 < 2 ^ 32 /\ 0 <= 0x7fff < 2 ^ 32)
  /\ (getRunValues 900 = getRunValues 0x7fff <-> 900 = 0x7fff).
Proof.
  split; [lia |]. apply (getRunValues_injective 900 0x7fff); lia.
Defined.

Lemma app_tail3_inv {A : Type} (g g' : list A) (a b c a' b' c' : A) :
  g ++ [a; b; c] = g' ++ [a'; b'; c'] ->
  g = g' /\ a = a' /\ b = b' /\ c = c'.
Proof.
  intros H. apply (f_equal (@rev A)) in H.
  rewrite !rev_app_distr in H. cbn [rev app] in H.
  injection H as -> -> -> Hg.
  apply (f_equal (@rev A)) in Hg. rewrite !rev_involutive in Hg.
  auto.
Qed.

(** The magnitude of the duration can be read off the command: as long as
    the steady run fits 32 bits, two commands built with the same ramp
    constant are equal only if their durations have the same magnitude. *)
Theorem motorCommand_duration
  (command port n speed command' port' n' speed' ramp : Z) :
  Z.abs n - ramp * 2 < 2 ^ 32 -> Z.abs n' - ramp * 2 < 2 ^ 32 ->
  _motorCommand command port n speed ramp
  = _motorCommand command' port' n' speed' ramp ->
  Z.abs n = Z.abs n'.
Proof.
  intros Hn Hn' Heq. rewrite !_motorCommand_parts in Heq.
  cbn [app] in Heq. injection Heq as _ _ _ Hup Hrest.
  apply app_tail3_inv in Hrest. destruct Hrest as (Hrun & _ & Hdown & _).
  apply getRunValues_eq_inv in Hrun;
    [| rewrite ramping_run; lia | rewrite ramping_run; lia].
  rewrite <- (ramping_sum (Z.abs n) ramp), <- (ramping_sum (Z.abs n') ramp).
  rewrite Hup, Hrun, Hdown. reflexivity.
Qed.

Lemma motorCommand_duration_witness :
  (Z.abs 70000 - 50 * 2 < 2 ^ 32 /\ Z.abs (-70000) - 50 * 2 < 2 ^ 32
   /\ _motorCommand 0xAF 1 70000 50 50 = _motorCommand 0xAF 1 (-70000) (-50) 50)
  /\ Z.abs 70000 = Z.abs (-70000).
Proof.
  assert (_motorCommand 0xAF 1 70000 50 50
          = _motorCommand 0xAF 1 (-70000) (-50) 50) as H
    by (vm_compute; reflexivity).
  split; [split; [lia | split; [lia | exact H]] |].
  apply (motorCommand_duration 0xAF 1 70000 50 0xAF 1 (-70000) (-50) 50);
    [lia | lia | exact H].
Defined.

(** * Further properties of the frame builder *)

(** A frame can be taken apart again: it is 7 elements longer than the
    instruction, the instruction follows the seventh element unchanged, the
    addressing byte is at position 5, and the length field is the number of
    elements after it, modulo [2^16]. *)
Theorem applyPrefix_parse (n : Z) (cmd : list Z) :
  length (_applyPrefix n cmd) = (length cmd + 7)%nat
  /\ skipn 7 (_applyPrefix n cmd) = cmd
  /\ nth 5 (_applyPrefix n cmd) 0 = n
  /\ le_decode (firstn 2 (_applyPrefix n cmd))
     = (Z.of_nat (length (_applyPrefix n cmd)) - 2) mod 2 ^ 16.
Proof.
  assert (length (_applyPrefix n cmd) = (length cmd + 7)%nat) as Hlen
    by (unfold _applyPrefix; rewrite length_app; cbn [length]; lia).
  split; [exact Hlen |]. split; [reflexivity |]. split; [reflexivity |].
  rewrite _applyPrefix_length_field, Hlen. f_equal. lia.
Qed.

(** The frame builder is injective: equal frames come from equal addressing
    bytes and equal instructions. *)
Theorem applyPrefix_injective (n n' : Z) (cmd cmd' : list Z) :
  _applyPrefix n cmd = _applyPrefix n' cmd' -> n = n' /\ cmd = cmd'.
Proof.
  intros H.
  pose proof (f_equal (fun l => nth 5 l 0) H) as Hn.
  pose proof (f_equal (skipn 7) H) as Hcmd.
  split; [exact Hn | exact Hcmd].
Qed.

Lemma applyPrefix_injective_witness :
  _applyPrefix 0 instruction_run_900 = _applyPrefix 0 instruction_run_900
  /\ 0 = 0 /\ instruction_run_900 = instruction_run_900.
Proof.
  split; [reflexivity |].
  apply (applyPrefix_injective 0 0 instruction_run_900 instruction_run_900).
  reflexivity.
Defined.

(** Framing bytes gives bytes. *)
Theorem applyPrefix_bytes (n : Z) (cmd : list Z) :
  is_byte n -> Forall is_byte cmd -> Forall is_byte (_applyPrefix n cmd).
Proof.
  intros Hn Hcmd. unfold _applyPrefix.
  assert (is_byte 0 /\ is_byte 1) as [H0 H1] by (unfold is_byte; lia).
  apply Forall_app. split; [| exact Hcmd].
  repeat (constructor;
          [first [apply band_0xff_range | assumption] |]).
  constructor.
Qed.

Lemma applyPrefix_bytes_witness :
  (is_byte 0 /\ Forall is_byte instruction_run_900)
  /\ Forall is_byte (_applyPrefix 0 instruction_run_900).
Proof.
  assert (is_byte 0) as H0 by (unfold is_byte; lia).
  assert (Forall is_byte instruction_run_900) as Hi
    by (repeat constructor; discriminate).
  split; [split; assumption |].
  apply (applyPrefix_bytes 0 instruction_run_900); assumption.
Defined.

(** * Further properties of the codec *)

Lemma list_ind3 {A : Type} (P : list A -> Prop) :
  P [] -> (forall a, P [a]) -> (forall a b, P [a; b]) ->
  (forall a b c l, P l -> P (a :: b :: c :: l)) ->
  forall l, P l.
Proof.
  intros H0 H1 H2 H3 l.
  enough (P l /\ (forall a, P (a :: l)) /\ (forall a b, P (a :: b :: l)))
    as [H _] by exact H.
  induction l as [| x l (IH0 & IH1 & IH2)].
  - auto.
  - split; [apply IH1 |]. split; [intros a; apply IH2 |].
    intros a b. apply H3. exact IH0.
Qed.

Lemma string_app_assoc (a b c : string) :
  ((a ++ b) ++ c)%string = (a ++ (b ++ c))%string.
Proof. induction a as [| x a IH]; cbn; [reflexivity | now rewrite IH]. Qed.

Lemma string_app_nil (a : string) : (a ++ "")%string = a.
Proof. induction a as [| x a IH]; cbn; [reflexivity | now rewrite IH]. Qed.

(** The loop of [_arrayBufferToBase64] builds the string of the bytes. *)
Lemma binary_chars (bytes : list Z) (acc : string) :
  fold_left (fun binary b => (binary ++ Codec.String_fromCharCode b)%string)
    bytes acc
  = (acc ++ chars bytes)%string.
Proof.
  revert acc. induction bytes as [| b bytes IH]; intros acc; cbn [fold_left chars].
  - symmetry. apply string_app_nil.
  - rewrite IH, string_app_assoc. reflexivity.
Qed.

Lemma _arrayBufferToBase64_chars (buffer : list Z) :
  Codec._arrayBufferToBase64 buffer = Codec.btoa (chars (Codec.Uint8Array buffer)).
Proof. unfold Codec._arrayBufferToBase64. rewrite binary_chars. reflexivity. Qed.

Lemma Uint8Array_bytes (buffer : list Z) : Forall is_byte (Codec.Uint8Array buffer).
Proof.
  unfold Codec.Uint8Array. apply Forall_map, Forall_forall.
  intros x _. apply Z.mod_pos_bound. lia.
Qed.

Lemma charCode_ascii (b : Z) :
  is_byte b -> Codec.charCode (ascii_of_N (Z.to_N b)) = b.
Proof.
  intros Hb. unfold Codec.charCode, is_byte in *.
  rewrite N_ascii_embedding by lia. lia.
Qed.

Lemma sextet_ok_all (i : Z) : 0 <= i < 64 -> sextet_ok i = true.
Proof.
  intros Hi.
  assert (forallb sextet_ok (map Z.of_nat (seq 0 64)) = true) as Hall
    by (vm_compute; reflexivity).
  rewrite forallb_forall in Hall. apply Hall.
  apply in_map_iff. exists (Z.to_nat i).
  split; [lia | apply in_seq; lia].
Qed.

Lemma unsextet_sextet (i : Z) :
  0 <= i < 64 ->
  unsextet (Codec.sextet i) = Some i
  /\ Ascii.eqb (Codec.sextet i) "=" = false.
Proof.
  intros Hi. pose proof (sextet_ok_all i Hi) as Hok. unfold sextet_ok in Hok.
  destruct (unsextet (Codec.sextet i)) as [j |]; [| discriminate].
  apply andb_prop in Hok. destruct Hok as [Hj Hpad].
  apply Z.eqb_eq in Hj. apply negb_true_iff in Hpad. subst j. auto.
Qed.

Lemma base64_decode_block (i j k m : Z) (rest : string) :
  0 <= i < 64 -> 0 <= j < 64 -> 0 <= k < 64 -> 0 <= m < 64 ->
  base64_decode
    (String (Codec.sextet i) (String (Codec.sextet j)
       (String (Codec.sextet k) (String (Codec.sextet m) rest))))
  = match base64_decode rest with
    | Some bytes =>
        Some (i * 4 + j / 16 :: j mod 16 * 16 + k / 4 :: k mod 4 * 64 + m
              :: bytes)
    | None => None
    end.
Proof.
  intros Hi Hj Hk Hm.
  destruct (unsextet_sextet i Hi) as [Ei _].
  destruct (unsextet_sextet j Hj) as [Ej _].
  destruct (unsextet_sextet k Hk) as [Ek _].
  destruct (unsextet_sextet m Hm) as [Em Pm].
  cbn [base64_decode]. rewrite Ei, Ej, Ek, Em, Pm. reflexivity.
Qed.

Lemma base64_decode_two (i j k : Z) :
  0 <= i < 64 -> 0 <= j < 64 -> 0 <= k < 64 ->
  base64_decode
    (String (Codec.sextet i) (String (Codec.sextet j)
       (String (Codec.sextet k) "=")))
  = Some [ i * 4 + j / 16; j mod 16 * 16 + k / 4 ].
Proof.
  intros Hi Hj Hk.
  destruct (unsextet_sextet i Hi) as [Ei _].
  destruct (unsextet_sextet j Hj) as [Ej _].
  destruct (unsextet_sextet k Hk) as [Ek Pk].
  cbn [base64_decode]. rewrite Ei, Ej, Ek, Pk. reflexivity.
Qed.

Lemma base64_decode_one (i j : Z) :
  0 <= i < 64 -> 0 <= j < 64 ->
  base64_decode (String (Codec.sextet i) (String (Codec.sextet j) "=="))
  = Some [ i * 4 + j / 16 ].
Proof.
  intros Hi Hj.
  destruct (unsextet_sextet i Hi) as [Ei _].
  destruct (unsextet_sextet j Hj) as [Ej _].
  cbn [base64_decode]. rewrite Ei, Ej. reflexivity.
Qed.

Lemma btoa_block (a b c : ascii) (rest : string) :
  Codec.btoa (String a (String b (String c rest))) =
    String (Codec.sextet (Codec.charCode a / 4))
      (String (Codec.sextet (Codec.charCode a mod 4 * 16 + Codec.charCode b / 16))
         (String (Codec.sextet (Codec.charCode b mod 16 * 4 + Codec.charCode c / 64))
            (String (Codec.sextet (Codec.charCode c mod 64)) (Codec.btoa rest)))).
Proof. reflexivity. Qed.

(** The bytes of a string of bytes come back from its base64 text. *)
Lemma base64_decode_btoa (bytes : list Z) :
  Forall is_byte bytes -> base64_decode (Codec.btoa (chars bytes)) = Some bytes.
Proof.
  induction bytes as [| a | a b | a b c l IH] using list_ind3; intros Hb.
  - reflexivity.
  - inversion_clear Hb as [| ? ? Ha _]. cbn [chars Codec.btoa].
    rewrite charCode_ascii by exact Ha. unfold is_byte in Ha.
    rewrite base64_decode_one by (Z.div_mod_to_equations; lia).
    do 2 f_equal. Z.div_mod_to_equations; lia.
  - inversion_clear Hb as [| ? ? Ha Hb']. inversion_clear Hb' as [| ? ? Hb _].
    cbn [chars Codec.btoa].
    rewrite !charCode_ascii by assumption. unfold is_byte in Ha, Hb.
    rewrite base64_decode_two by (Z.div_mod_to_equations; lia).
    f_equal. f_equal; [| f_equal]; Z.div_mod_to_equations; lia.
  - inversion_clear Hb as [| ? ? Ha Hb']. inversion_clear Hb' as [| ? ? Hb Hc'].
    inversion_clear Hc' as [| ? ? Hc Hl].
    cbn [chars]. rewrite btoa_block.
    rewrite !charCode_ascii by assumption. unfold is_byte in Ha, Hb, Hc.
    rewrite base64_decode_block by (Z.div_mod_to_equations; lia).
    rewrite (IH Hl).
    f_equal. f_equal; [| f_equal; [| f_equal]]; Z.div_mod_to_equations; lia.
Qed.

(** Round trip of the codec: the base64 text of a buffer denotes the
    elements of the buffer modulo 256, in order. *)
Theorem arrayBufferToBase64_decode (buffer : list Z) :
  base64_decode (Codec._arrayBufferToBase64 buffer)
  = Some (map (fun x => x mod 256) buffer).
Proof.
  rewrite _arrayBufferToBase64_chars.
  apply base64_decode_btoa, Uint8Array_bytes.
Qed.

(** On bytes the codec is injective: different frames give different texts. *)
Theorem arrayBufferToBase64_injective (buffer buffer' : list Z) :
  Forall is_byte buffer -> Forall is_byte buffer' ->
  Codec._arrayBufferToBase64 buffer = Codec._arrayBufferToBase64 buffer' ->
  buffer = buffer'.
Proof.
  intros Hb Hb' Heq.
  assert (forall l, Forall is_byte l -> map (fun x => x mod 256) l = l) as Hid.
  { intros l Hl. induction Hl as [| x l Hx _ IH]; cbn [map]; [reflexivity |].
    rewrite IH, Z.mod_small by exact Hx. reflexivity. }
  pose proof (base64_decode_btoa _ (Uint8Array_bytes buffer)) as H.
  pose proof (base64_decode_btoa _ (Uint8Array_bytes buffer')) as H'.
  rewrite <- _arrayBufferToBase64_chars in H, H'.
  rewrite Heq, H' in H. injection H as H.
  unfold Codec.Uint8Array in H.
  rewrite (Hid _ Hb), (Hid _ Hb') in H. symmetry. exact H.
Qed.

(** The text has four characters for every three elements of the buffer,
    the last group being padded. *)
Theorem arrayBufferToBase64_length (buffer : list Z) :
  String.length (Codec._arrayBufferToBase64 buffer)
  = (4 * ((length buffer + 2) / 3))%nat.
Proof.
  rewrite _arrayBufferToBase64_chars. unfold Codec.Uint8Array.
  induction buffer as [| a | a b | a b c l IH] using list_ind3;
    try reflexivity.
  cbn [map chars length]. rewrite btoa_block. cbn [String.length].
  rewrite IH.
  replace (S (S (S (length l))) + 2)%nat with (length l + 2 + 1 * 3)%nat by lia.
  rewrite Nat.div_add by lia. lia.
Qed.

Lemma arrayBufferToBase64_injective_witness :
  (Forall is_byte [ 18; 0 ] /\ Forall is_byte [ 18; 0 ]
   /\ Codec._arrayBufferToBase64 [ 18; 0 ] = Codec._arrayBufferToBase64 [ 18; 0 ])
  /\ [ 18; 0 ] = [ 18; 0 ].
Proof.
  assert (Forall is_byte [ 18; 0 ]) as H by (repeat constructor; discriminate).
  split; [split; [exact H | split; [exact H | reflexivity]] |].
  apply (arrayBufferToBase64_injective [ 18; 0 ] [ 18; 0 ] H H). reflexivity.
Defined.

(** The literal of [beep] denotes 17 bytes, the first two of which count the
    15 bytes after them. *)
Example beep_frame :
  base64_decode "DwAAAIAAAJQBgQKC6AOC6AM=" =
    Some [ 0x0F; 0; 0; 0; 0x80; 0; 0; 0x94; 1; 0x81; 2; 0x82; 0xE8; 3;
           0x82; 0xE8; 3 ].
Proof. vm_compute. reflexivity. Qed.

(** * Further properties of the dispatcher *)

(** The cast of an argument that denotes an integer is that integer. *)
Lemma Cast_toNumber_denotes (v : jsvalue) (z : Z) :
  denotes v z -> Cast_toNumber v = z.
Proof.
  intros [-> | ->]; [reflexivity |].
  unfold Cast_toNumber, JS.String_of.
  rewrite NilZero.isi.
  - apply DecimalZ.of_to.
  - destruct z; cbn; intros H;
      first [ discriminate H
            | injection H as H; revert H;
              apply DecimalPos.Unsigned.to_uint_nonnil ].
  - destruct z; cbn; intros H;
      first [ discriminate H
            | injection H as H; revert H;
              apply DecimalPos.Unsigned.to_uint_nonnil ].
Qed.

(** While the flag is set, a turn block whose arguments denote the port [p]
    and a whole number [t] of seconds (integers or integer numerals, with [p]
    and [t * 1000] below [2^53] in magnitude) sends one message, whose text
    denotes the framed motor command byte for byte, and returns the promise
    of a timer of [t * 1000] ms. *)
Theorem motorTurnClockwise_connected
  (args : block_args) (p t : Z) (this : Scratch3Ev3Blocks) :
  connected this = true ->
  denotes (PORT args) p -> denotes (TIME args) t ->
  Z.abs p < 2 ^ 53 -> Z.abs (t * 1000) < 2 ^ 53 ->
  exists m,
    motorTurnClockwise args this =
      (bt_sendMessage m this, Promise_timeout (t * 1000))
    /\ encoding m = "base64"%string
    /\ base64_decode (message m) =
         Some (map (fun x => x mod 256)
                 (_applyPrefix 0
                    (_motorCommand PRIMITIVE.TIMESPEED p (t * 1000) (speed this)
                       PRIMITIVE.LONGRAMP))).
Proof.
  intros Hc Hp Ht _ _. unfold motorTurnClockwise. rewrite Hc. cbn [negb].
  rewrite (Cast_toNumber_denotes _ _ Hp), (Cast_toNumber_denotes _ _ Ht).
  eexists. split; [reflexivity |]. split; [reflexivity |].
  cbn [message]. rewrite _arrayBufferToBase64_chars.
  apply base64_decode_btoa, Uint8Array_bytes.
Qed.

Lemma motorTurnClockwise_connected_witness :
  (connected linked = true
   /\ denotes (PORT turn_A_1s) 1 /\ denotes (TIME turn_A_1s) 1
   /\ Z.abs 1 < 2 ^ 53 /\ Z.abs (1 * 1000) < 2 ^ 53)
  /\ exists m,
       motorTurnClockwise turn_A_1s linked =
         (bt_sendMessage m linked, Promise_timeout (1 * 1000))
       /\ encoding m = "base64"%string
       /\ base64_decode (message m) =
            Some (map (fun x => x mod 256)
                    (_applyPrefix 0
                       (_motorCommand PRIMITIVE.TIMESPEED 1 (1 * 1000)
                          (speed linked) PRIMITIVE.LONGRAMP))).
Proof.
  assert (denotes (PORT turn_A_1s) 1) as Hp by (right; reflexivity).
  assert (denotes (TIME turn_A_1s) 1) as Ht by (left; reflexivity).
  split; [split; [reflexivity | split; [exact Hp | split; [exact Ht | lia]]] |].
  apply (motorTurnClockwise_connected turn_A_1s 1 1 linked eq_refl Hp Ht); lia.
Defined.

(** Turning counter-clockwise for [t] seconds has the same effect on the
    extension, message included, as turning clockwise for [- t] seconds; only
    the timers of the returned promises differ. *)
Theorem motorTurnCounterClockwise_mirror
  (port : jsvalue) (t : Z) (this : Scratch3Ev3Blocks) :
  fst (motorTurnCounterClockwise {| PORT := port; TIME := Num t |} this)
  = fst (motorTurnClockwise {| PORT := port; TIME := Num (- t) |} this).
Proof.
  unfold motorTurnCounterClockwise, motorTurnClockwise.
  destruct (connected this); cbn [negb fst PORT TIME Cast_toNumber];
    [| reflexivity].
  rewrite !_motorCommand_parts, !dir_byte_spec.
  replace (Z.abs (- t * 1000)) with (Z.abs (t * 1000)) by lia.
  replace (Z.abs (speed this * -1)) with (Z.abs (speed this)) by lia.
  replace (speed this * -1 * (t * 1000)) with (speed this * (- t * 1000))
    by lia.
  reflexivity.
Qed.

(** * Further properties of the connection *)

Lemma run_events_cons (e : event) (es : list event) (this : Scratch3Ev3Blocks) :
  run_events (e :: es) this = run_events es (step this e).
Proof. reflexivity. Qed.

(** A property kept by every event holds along every run. *)
Lemma run_events_invariant (P : Scratch3Ev3Blocks -> Prop) :
  (forall this e, P this -> P (step this e)) ->
  forall es this, P this -> P (run_events es this).
Proof.
  intros Hstep es. induction es as [| e es IH]; intros this HP.
  - exact HP.
  - rewrite run_events_cons. apply IH, Hstep, HP.
Qed.

Lemma reachable_invariant (P : Scratch3Ev3Blocks -> Prop) :
  P constructor -> (forall this e, P this -> P (step this e)) ->
  forall this, reachable this -> P this.
Proof.
  intros H0 Hstep this [es ->]. apply run_events_invariant; assumption.
Qed.

(** What a block does to the extension: nothing, or one more message, in
    base64, and then the flag is set. *)
Lemma call_block_effect (b : block) (this : Scratch3Ev3Blocks) :
  (connected this = false /\ fst (call_block b this) = this)
  \/ (connected this = true
      /\ exists m, fst (call_block b this) = bt_sendMessage m this
                   /\ encoding m = "base64"%string).
Proof.
  destruct (connected this) eqn:Hc; [right | left]; split; try reflexivity;
    destruct b; cbn [call_block];
    unfold motorTurnClockwise, motorTurnCounterClockwise, beep;
    rewrite Hc; cbn [negb fst]; try reflexivity;
    eexists; split; reflexivity.
Qed.

(** The scan is requested at most once, for the device class (8, 1), and
    exactly when the timer of the constructor has fired. *)
Theorem scan_requested_once (this : Scratch3Ev3Blocks) :
  reachable this ->
  (scan_timer this = Some 500 /\ requestDevice_calls this = [])
  \/ (scan_timer this = None /\ requestDevice_calls this = [ (8, 1) ]).
Proof.
  revert this. apply reachable_invariant; [left; split; reflexivity |].
  intros this e Hinv. destruct e as [| r | m | r | b]; cbn [step].
  - destruct Hinv as [[Ht Hr] | [Ht Hr]]; rewrite Ht.
    + right. cbn. rewrite Hr. split; reflexivity.
    + right. split; assumption.
  - destruct r; exact Hinv.
  - destruct m as [id | |]; cbn; try exact Hinv.
    destruct (connected this); exact Hinv.
  - destruct (connectDevice_pending this); [exact Hinv |].
    destruct r; exact Hinv.
  - destruct (call_block_effect b this) as [[_ ->] | [_ (m & -> & _)]];
      exact Hinv.
Qed.

Lemma scan_requested_once_witness :
  reachable linked
  /\ ((scan_timer linked = Some 500 /\ requestDevice_calls linked = [])
      \/ (scan_timer linked = None /\ requestDevice_calls linked = [ (8, 1) ])).
Proof.
  assert (reachable linked) as H by (eexists; reflexivity).
  split; [exact H | apply (scan_requested_once linked H)].
Defined.

(** The speed stays at its default 50, and every message handed to the
    socket is marked as base64. *)
Theorem speed_and_encoding (this : Scratch3Ev3Blocks) :
  reachable this ->
  speed this = 50
  /\ Forall (fun m => encoding m = "base64"%string) (sendMessage_calls this).
Proof.
  revert this. apply reachable_invariant; [split; [reflexivity | constructor] |].
  intros this e Hinv. destruct e as [| r | m | r | b]; cbn [step].
  - destruct (scan_timer this); exact Hinv.
  - destruct r; exact Hinv.
  - destruct m as [id | |]; cbn; try exact Hinv.
    destruct (connected this); exact Hinv.
  - destruct (connectDevice_pending this); [exact Hinv |].
    destruct r; exact Hinv.
  - destruct (call_block_effect b this) as [[_ ->] | [_ (m & -> & Hm)]];
      [exact Hinv |].
    destruct Hinv as [Hs Hall]. split; [exact Hs |].
    cbn [sendMessage_calls bt_sendMessage].
    apply Forall_app. split; [exact Hall |]. constructor; [exact Hm | constructor].
Qed.

Lemma speed_and_encoding_witness :
  reachable linked
  /\ speed linked = 50
  /\ Forall (fun m => encoding m = "base64"%string) (sendMessage_calls linked).
Proof.
  assert (reachable linked) as H by apply reachable_run.
  split; [exact H | apply (speed_and_encoding linked H)].
Defined.

(** No message is sent, and the flag is not set, before a connect request has
    been issued. *)
Theorem no_send_before_connect (this : Scratch3Ev3Blocks) :
  reachable this ->
  connected this = true \/ sendMessage_calls this <> [] ->
  connectDevice_calls this <> [].
Proof.
  revert this.
  apply (reachable_invariant
           (fun this => connected this = true \/ sendMessage_calls this <> [] ->
                        connectDevice_calls this <> [])).
  - intros [H | H]; [discriminate H | contradiction H; reflexivity].
  - intros this e Hinv. destruct e as [| r | m | r | b]; cbn [step].
    + destruct (scan_timer this); exact Hinv.
    + destruct r; exact Hinv.
    + destruct m as [id | |]; cbn; try exact Hinv.
      assert (connected this = true \/ connected this = false) as [Hc | Hc]
        by (destruct (connected this); auto);
        rewrite Hc; cbn; intros _.
      * apply Hinv. left. exact Hc.
      * intros H. apply app_eq_nil in H. destruct H as [_ H]. discriminate H.
    + destruct (connectDevice_pending this); [exact Hinv |].
      destruct r; cbn; [exact Hinv |].
      intros [H | H]; [discriminate H |]. apply Hinv. right. exact H.
    + destruct (call_block_effect b this) as [[_ ->] | [Hc (m & -> & _)]];
        [exact Hinv |].
      intros _. cbn. apply Hinv. left. exact Hc.
Qed.

Lemma no_send_before_connect_witness :
  (reachable linked
   /\ (connected linked = true \/ sendMessage_calls linked <> []))
  /\ connectDevice_calls linked <> [].
Proof.
  assert (reachable linked) as H by apply reachable_run.
  assert (connected linked = true \/ sendMessage_calls linked <> []) as H'
    by (left; reflexivity).
  split; [split; assumption | apply (no_send_before_connect linked H H')].
Defined.

(** How the number of connect requests and the flag move in one step: a new
    request is issued only by a discovery that finds the flag clear, and the
    flag is cleared only by a rejection. *)
Lemma step_connect_calls (this : Scratch3Ev3Blocks) (e : event) :
  (connectDevice_calls (step this e) = connectDevice_calls this
   /\ (connected (step this e) = connected this
       \/ (is_rejection e = true /\ connected (step this e) = false)))
  \/ (exists id, e = ReceiveCall (didDiscoverPeripheral id)
                 /\ connected this = false
                 /\ connected (step this e) = true
                 /\ connectDevice_calls (step this e)
                    = connectDevice_calls this ++ [id]).
Proof.
  destruct e as [| r | m | r | b]; cbn [step].
  - left. destruct (scan_timer this); cbn; auto.
  - left. destruct r; cbn; auto.
  - destruct m as [id | |]; cbn; auto.
    assert (connected this = true \/ connected this = false) as [Hc | Hc]
      by (destruct (connected this); auto);
      rewrite Hc; cbn; [left; auto |].
    right. exists id. auto.
  - left. destruct (connectDevice_pending this); [auto |].
    destruct r; cbn; auto.
  - left. destruct (call_block_link b this) as (-> & -> & _). auto.
Qed.

Lemma count_cons (f : event -> bool) (e : event) (es : list event) :
  count f (e :: es) = ((if f e then 1 else 0) + count f es)%nat.
Proof. unfold count. cbn [filter]. destruct (f e); reflexivity. Qed.

Lemma connect_calls_bound (es : list event) (this : Scratch3Ev3Blocks) :
  (length (connectDevice_calls (run_events es this))
   + (if connected (run_events es this) then 0 else 1)
   <= length (connectDevice_calls this)
      + (if connected this then 0 else 1) + count is_rejection es)%nat
  /\ (length (connectDevice_calls (run_events es this))
      <= length (connectDevice_calls this) + count is_discovery es)%nat.
Proof.
  revert this. induction es as [| e es IH]; intros this.
  - cbn. lia.
  - rewrite run_events_cons, !count_cons.
    destruct (IH (step this e)) as [IH1 IH2].
    destruct (step_connect_calls this e)
      as [[Hcalls [Hc | [Hrej Hc]]] | (id & -> & Hc & Hc' & Hcalls)].
    + rewrite Hcalls, Hc in *. lia.
    + rewrite Hcalls, Hc, Hrej in *. destruct (connected this); lia.
    + rewrite Hcalls, Hc', length_app in *. rewrite Hc.
      cbn [is_discovery is_rejection length] in *. lia.
Qed.

(** Along any run from the constructor, the number of connect requests is
    at most one more than the number of rejected requests, and at most the
    number of discoveries. *)
Theorem connect_attempts_bounded (es : list event) :
  (length (connectDevice_calls (run_events es constructor))
   <= 1 + count is_rejection es)%nat
  /\ (length (connectDevice_calls (run_events es constructor))
      <= count is_discovery es)%nat.
Proof.
  destruct (connect_calls_bound es constructor) as [H1 H2].
  cbn [connectDevice_calls connected constructor length] in H1, H2.
  split; [| exact H2].
  destruct (connected (run_events es constructor)); lia.
Qed.

(** Every peripheral a connect request names was discovered earlier in the
    run. *)
Theorem connect_only_discovered (es : list event) (id : string) :
  In id (connectDevice_calls (run_events es constructor)) ->
  In (ReceiveCall (didDiscoverPeripheral id)) es.
Proof.
  enough (forall this,
            In id (connectDevice_calls (run_events es this)) ->
            In id (connectDevice_calls this)
            \/ In (ReceiveCall (didDiscoverPeripheral id)) es) as H.
  { intros Hin. destruct (H constructor Hin) as [[] | Hes]. exact Hes. }
  induction es as [| e es IH]; intros this Hin.
  - left. exact Hin.
  - rewrite run_events_cons in Hin.
    destruct (IH _ Hin) as [Hstep | Hes]; [| right; right; exact Hes].
    destruct (step_connect_calls this e)
      as [[Hcalls _] | (id' & -> & _ & _ & Hcalls)];
      rewrite Hcalls in Hstep; [left; exact Hstep |].
    apply in_app_or in Hstep. destruct Hstep as [Hold | [-> | []]].
    + left. exact Hold.
    + right. left. reflexivity.
Qed.

Lemma connect_only_discovered_witness :
  In "ev3"%string
    (connectDevice_calls
       (run_events [ Timer_fires; ReceiveCall (didDiscoverPeripheral "ev3") ]
          constructor))
  /\ In (ReceiveCall (didDiscoverPeripheral "ev3"))
       [ Timer_fires; ReceiveCall (didDiscoverPeripheral "ev3") ].
Proof.
  assert (In "ev3"%string
            (connectDevice_calls
               (run_events
                  [ Timer_fires; ReceiveCall (didDiscoverPeripheral "ev3") ]
                  constructor))) as H by (left; reflexivity).
  split; [exact H |].
  apply (connect_only_discovered
           [ Timer_fires; ReceiveCall (didDiscoverPeripheral "ev3") ] "ev3" H).
Defined.

Lemma step_messages (this : Scratch3Ev3Blocks) (e : event) :
  (length (sendMessage_calls (step this e))
   <= length (sendMessage_calls this) + (if is_block e then 1 else 0))%nat.
Proof.
  destruct e as [| r | m | r | b]; cbn [step is_block].
  - destruct (scan_timer this); cbn; lia.
  - destruct r; cbn; lia.
  - destruct m as [id | |]; cbn; try lia.
    destruct (connected this); cbn; lia.
  - destruct (connectDevice_pending this); [lia |]. destruct r; cbn; lia.
  - destruct (call_block_effect b this) as [[_ ->] | [_ (m & -> & _)]];
      [lia |].
    cbn [sendMessage_calls bt_sendMessage]. rewrite length_app. cbn. lia.
Qed.

(** At most one message is sent per block that is run; nothing else sends. *)
Theorem messages_bounded (es : list event) (this : Scratch3Ev3Blocks) :
  (length (sendMessage_calls (run_events es this))
   <= length (sendMessage_calls this) + count is_block es)%nat.
Proof.
  revert this. induction es as [| e es IH]; intros this.
  - cbn. lia.
  - rewrite run_events_cons, count_cons.
    pose proof (IH (step this e)). pose proof (step_messages this e). lia.
Qed.

(** There is no way back: once the flag is set and no connect request is
    pending, no event clears the flag, issues a connect request or leaves one
    pending. *)
Theorem connected_for_good (es : list event) (this : Scratch3Ev3Blocks) :
  connected this = true -> connectDevice_pending this = [] ->
  connected (run_events es this) = true
  /\ connectDevice_pending (run_events es this) = []
  /\ connectDevice_calls (run_events es this) = connectDevice_calls this.
Proof.
  revert this. induction es as [| e es IH]; intros this Hc Hp.
  - auto.
  - rewrite run_events_cons.
    assert (connected (step this e) = true
            /\ connectDevice_pending (step this e) = []
            /\ connectDevice_calls (step this e) = connectDevice_calls this)
      as (Hc' & Hp' & Hcalls).
    { destruct e as [| r | m | r | b]; cbn [step].
      - destruct (scan_timer this); cbn; auto.
      - destruct r; cbn; auto.
      - destruct m as [id | |]; cbn; auto. rewrite Hc. cbn. auto.
      - rewrite Hp. auto.
      - destruct (call_block_link b this) as (-> & -> & ->). auto. }
    destruct (IH _ Hc' Hp') as (H1 & H2 & H3).
    rewrite H3, Hcalls. auto.
Qed.

Lemma connected_for_good_witness :
  (connected linked = true /\ connectDevice_pending linked = [])
  /\ connected
       (run_events
          [ ConnectDevice_settles false;
            ReceiveCall (didDiscoverPeripheral "other") ] linked) = true.
Proof.
  split; [split; reflexivity |].
  exact (proj1 (connected_for_good
                  [ ConnectDevice_settles false;
                    ReceiveCall (didDiscoverPeripheral "other") ]
                  linked eq_refl eq_refl)).
Defined.

(** * Further properties of the menu *)

Lemma _buildMenu_from_items (k : nat) (info : list Info.t) :
  map Menu.text (_buildMenu_from (Z.of_nat k) info) = map Info.name info
  /\ map Menu.value (_buildMenu_from (Z.of_nat k) info)
     = map (fun i => JS.String_of (Z.of_nat i + 1)) (seq k (length info)).
Proof.
  revert k. induction info as [| entry info IH]; intros k.
  - split; reflexivity.
  - cbn [_buildMenu_from map length seq].
    replace (Z.of_nat k + 1) with (Z.of_nat (S k)) by lia.
    destruct (IH (S k)) as [-> ->]. split; reflexivity.
Qed.

(** A menu has one item per entry, in order; the text of an item is the name
    of its entry and its value is the decimal numeral of its one-based
    position.  The [value] of the entry plays no part. *)
Theorem buildMenu_items (info : list Info.t) :
  map Menu.text (_buildMenu info) = map Info.name info
  /\ map Menu.value (_buildMenu info)
     = map (fun i => JS.String_of (Z.of_nat i + 1)) (seq 0 (length info))
  /\ (forall info', map Info.name info' = map Info.name info ->
                    _buildMenu info' = _buildMenu info).
Proof.
  destruct (_buildMenu_from_items 0 info) as [Ht Hv].
  split; [exact Ht |]. split; [exact Hv |]. clear Ht Hv.
  unfold _buildMenu. generalize 0.
  induction info as [| entry info IH]; intros k info' Hnames;
    destruct info' as [| entry' info']; try discriminate Hnames.
  - reflexivity.
  - cbn [map] in Hnames. injection Hnames as Hname Hrest.
    cbn [_buildMenu_from]. rewrite Hname. f_equal. apply IH. exact Hrest.
Qed.
